(** * Denoising diffusion training objective: [diffusion/denoise_diffusion.py]

    A shallow embedding of the classes [DenoiseDiffusion] and
    [DMDenoiseDiffusion]: the schedule constants computed by [__init__],
    the forward process [q_xt_x0] and the two [loss] methods.

    Tensors are a shape together with an element function over
    multi-indices; tensors that Python passes by reference and mutates in
    place ([cond]) live in a store.  Scalars are kept abstract behind the
    class [Scalar]; random draws come from an explicit generator. *)

From stdpp Require Import base option list gmap strings pretty.
From Stdlib Require Import ZArith QArith Qabs Lia PrimFloat.

Local Open Scope string_scope.
Local Open Scope list_scope.
Local Open Scope nat_scope.

(** ** Scalars *)

(** The element type of tensors with the operations the source applies to
    it.  No law is assumed here; theorems that need one state it. *)
Class Scalar (F : Type) := {
  fzero : F;
  fone : F;
  fadd : F → F → F;
  fsub : F → F → F;
  fmul : F → F → F;
  fdiv : F → F → F;
  fsqrt : F → F;
  fabs : F → F;
  of_nat : nat → F;
  fleb : F → F → bool;
}.

(** ** Exceptions and results *)

Inductive exn :=
  | AssertionError
  | ValueError (msg : string)
  | TypeError
  | IndexError
  | AttributeError
  | RuntimeError
  | ModelError (code : nat).

Inductive result (A : Type) :=
  | Ok (a : A)
  | Raise (e : exn).
Arguments Ok {A} a.
Arguments Raise {A} e.

Definition rbind {A B} (r : result A) (k : A → result B) : result B :=
  match r with Ok a => k a | Raise e => Raise e end.

Notation "'try' x ':=' r 'in' k" := (rbind r (λ x, k))
  (at level 10, x pattern, r at level 100, k at level 200).

Definition is_ok {A} (r : result A) : bool :=
  match r with Ok _ => true | Raise _ => false end.

(** ** Tensors *)

Section tensors.
Context `{Scalar F}.

(** [shape] is [x.shape]; [elem x idx] is [x[idx]].  Only indices within
    the shape are meaningful. *)
Record tensor := Tensor { shape : list nat; elem : list nat → F }.

Definition in_range (s idx : list nat) : Prop := Forall2 lt idx s.

Definition tmap (f : F → F) (x : tensor) : tensor :=
  {| shape := shape x; elem := λ idx, f (elem x idx) |}.

(** Broadcasting of two shapes, aligned at the trailing dimension; the
    lists are the reversed shapes. *)
Fixpoint broadcast_rev (a b : list nat) : option (list nat) :=
  match a, b with
  | [], _ => Some b
  | _, [] => Some a
  | x :: a', y :: b' =>
      match broadcast_rev a' b' with
      | Some r =>
          if x =? y then Some (x :: r)
          else if x =? 1 then Some (y :: r)
          else if y =? 1 then Some (x :: r)
          else None
      | None => None
      end
  end.

Definition broadcast_shapes (a b : list nat) : option (list nat) :=
  reverse <$> broadcast_rev (reverse a) (reverse b).

(** The index of an operand of shape [s] read for index [idx] of the
    broadcast result: leading extra dimensions are dropped and a
    dimension of size 1 is always read at 0. *)
Definition bcast_index (s idx : list nat) : list nat :=
  zip_with (λ d i, if d =? 1 then 0 else i) s (drop (length idx - length s) idx).

(** Elementwise binary operators ([*], [+], [-]) with broadcasting. *)
Definition broadcast2 (op : F → F → F) (a b : tensor) : result tensor :=
  match broadcast_shapes (shape a) (shape b) with
  | Some s =>
      Ok {| shape := s;
            elem := λ idx, op (elem a (bcast_index (shape a) idx))
                              (elem b (bcast_index (shape b) idx)) |}
  | None => Raise RuntimeError
  end.

(** All multi-indices of a shape, in row-major order. *)
Fixpoint indices (s : list nat) : list (list nat) :=
  match s with
  | [] => [[]]
  | n :: s' => i ← seq 0 n; (i ::.) <$> indices s'
  end.

Definition numel (s : list nat) : nat := foldr Nat.mul 1 s.

(** [x.mean()] over all elements. *)
Definition mean_all (x : tensor) : F :=
  fdiv (foldl fadd fzero (elem x <$> indices (shape x))) (of_nat (numel (shape x))).

(** [F.l1_loss(input, target)] and [F.mse_loss(input, target)] with the
    default reduction ['mean']. *)
Definition l1_loss (input target : tensor) : result F :=
  try d := broadcast2 fsub input target in
  Ok (mean_all (tmap fabs d)).

Definition mse_loss (input target : tensor) : result F :=
  try d := broadcast2 fsub input target in
  Ok (mean_all (tmap (λ v, fmul v v) d)).

(** Python slice bound [:k] on a dimension of size [n]. *)
Definition slice_stop (k : option Z) (n : nat) : nat :=
  match k with
  | None => n
  | Some z => if (z <? 0)%Z then Z.to_nat (Z.of_nat n + z) else Z.to_nat z `min` n
  end.

(** [xt[:, :k] = x0[:, :k]].  Indexing two axes needs rank 2 or more; the
    two slices must agree in shape (here both tensors always have the
    shape of [x0]). *)
Definition setitem_prefix (xt x0 : tensor) (k : option Z) : result tensor :=
  match shape x0 with
  | _ :: n :: _ =>
      if bool_decide (shape xt = shape x0) then
        Ok {| shape := shape xt;
              elem := λ idx,
                match idx with
                | _ :: p :: _ => if p <? slice_stop k n then elem x0 idx else elem xt idx
                | _ => elem xt idx
                end |}
      else Raise RuntimeError
  | _ => Raise IndexError
  end.

(** [torch.ones(n, 1)]. *)
Definition ones (s : list nat) : tensor := {| shape := s; elem := λ _, fone |}.

(** [torch.cat([c, torch.ones(n, 1)], dim=-1)]: the operands must have the
    same rank and agree outside the last dimension; a 1-D empty tensor is
    skipped. *)
Definition cat_ones (c : tensor) (n : nat) : result tensor :=
  match shape c with
  | [0] => Ok (ones [n; 1])
  | [m; d] =>
      if m =? n then
        Ok {| shape := [n; d + 1];
              elem := λ idx,
                match idx with
                | [_; j] => if j <? d then elem c idx else fone
                | _ => fone
                end |}
      else Raise RuntimeError
  | _ => Raise RuntimeError
  end.

(** [c *= m]: the broadcast of the two shapes must be the shape of [c]. *)
Definition imul (c m : tensor) : result tensor :=
  try r := broadcast2 fmul c m in
  if bool_decide (shape r = shape c) then Ok r else Raise RuntimeError.

(** ** The collaborators *)

(** [models.UNet]: the capability flag and the forward pass, opaque.  The
    forward pass receives [cond] as Python passes it, [None] or a
    reference into the store, together with the store it may read. *)
Record Predictor := {
  use_cond : bool;
  forward : tensor → list nat → option nat → gmap nat tensor → result tensor;
}.

(** Modelled from the spec: the schedule generators of
    [utils.diffusion_utils] ("consumed as opaque arrays"), keyed by their
    keyword arguments and [T]. *)
Record diffusion_utils := {
  beta_schedual_linear : list (string * F) → nat → list F;
  beta_schedual_cosine : list (string * F) → nat → list F;
}.

(** Modelled from the spec: [utils.diffusion_utils.gather(consts, t, n_dim)],
    "for each batch element, select alpha_bar_t at its sampled t", shaped
    [[len(t), 1, ..., 1]] of rank [n_dim] so that it broadcasts over the
    data dimensions.  An index outside [consts] is an error. *)
Definition gather (consts : list F) (t : list nat) (n_dim : nat) : result tensor :=
  if forallb (λ i, i <? length consts) t then
    Ok {| shape := length t :: replicate (n_dim - 1) 1;
          elem := λ idx, default fzero (i ← t !! hd 0 idx; consts !! i) |}
  else Raise RuntimeError.

(** The process-wide random source: what the [pos]-th sampling call
    returns at each position of the sampled tensor. *)
Record Generator := {
  gen_int : nat → nat → nat;
  gen_normal : nat → list nat → F;
  gen_bernoulli : nat → nat → bool;
}.

(** ** Schedule constants *)

(** [torch.cumprod(a, dim=0)], a running product from the left. *)
Fixpoint cumprod_from (acc : F) (l : list F) : list F :=
  match l with
  | [] => []
  | a :: l' => let acc' := fmul acc a in acc' :: cumprod_from acc' l'
  end.

Definition cumprod (l : list F) : list F :=
  match l with
  | [] => []
  | a :: l' => a :: cumprod_from a l'
  end.

(** ** The process object *)

Record DenoiseDiffusion := {
  eps_model : Predictor;
  T : nat;
  device : string;
  loss_type : string;
  x_shape : option (list nat);
  beta_schedule : string;
  uncond_mask_dist : option F;
  betas : list F;
  alphas : list F;
  alphas_bar : list F;
  alphas_bar_prev : list F;
}.

Definition with_x_shape (self : DenoiseDiffusion) (s : list nat) : DenoiseDiffusion :=
  {| eps_model := eps_model self; T := T self; device := device self;
     loss_type := loss_type self; x_shape := Some s;
     beta_schedule := beta_schedule self;
     uncond_mask_dist := uncond_mask_dist self;
     betas := betas self; alphas := alphas self;
     alphas_bar := alphas_bar self;
     alphas_bar_prev := alphas_bar_prev self |}.

Context (utils : diffusion_utils).

(** [dist.Bernoulli(probs=p)] validates that [p] lies in the unit
    interval. *)
Definition Bernoulli (p : F) : result F :=
  if fleb fzero p && fleb p fone then Ok p
  else Raise (ValueError "Expected parameter probs to satisfy the constraint Interval").

(** [DenoiseDiffusion.__init__] (lines 17-50).  Moving the predictor to
    the device does not change it. *)
Definition DenoiseDiffusion_init (eps_model : Predictor) (uncond_prob : option F)
    (T : nat) (device loss_type beta_schedule : string)
    (kwargs : list (string * F)) : result DenoiseDiffusion :=
  if negb (Bool.eqb (bool_decide (uncond_prob ≠ None)) (use_cond eps_model))
  then Raise AssertionError else
  try mask_dist :=
    (if use_cond eps_model then
       match uncond_prob with
       | Some p => try d := Bernoulli (fsub fone p) in Ok (Some d)
       | None => Raise TypeError
       end
     else Ok None) in
  try betas :=
    (if bool_decide (beta_schedule = "linear") then
       Ok (beta_schedual_linear utils kwargs T)
     else if bool_decide (beta_schedule = "cosine") then
       Ok (beta_schedual_cosine utils kwargs T)
     else Raise (ValueError ("Unknown beta_schedule: " +:+ beta_schedule))) in
  let alphas := fsub fone <$> betas in
  let alphas_bar := cumprod alphas in
  let alphas_bar_prev := [fone] ++ removelast alphas_bar in
  Ok {| eps_model := eps_model; T := T; device := device;
        loss_type := loss_type; x_shape := None;
        beta_schedule := beta_schedule; uncond_mask_dist := mask_dist;
        betas := betas; alphas := alphas; alphas_bar := alphas_bar;
        alphas_bar_prev := alphas_bar_prev |}.

(** [DMDenoiseDiffusion.__init__] (lines 114-124) only calls the parent. *)
Definition DMDenoiseDiffusion_init := DenoiseDiffusion_init.

(** [q_xt_x0] (lines 61-69): the forward process q(x_t|x_0). *)
Definition q_xt_x0 (self : DenoiseDiffusion) (x0 : tensor) (t : list nat)
    : result (tensor * tensor) :=
  let n_dim := length (shape x0) in
  try alpha_bar := gather (alphas_bar self) t n_dim in
  try mean := broadcast2 fmul (tmap fsqrt alpha_bar) x0 in
  let std := tmap fsqrt (tmap (fsub fone) alpha_bar) in
  Ok (mean, std).

End tensors.

Arguments tensor F : clear implicits.
Arguments Predictor F : clear implicits.
Arguments diffusion_utils F : clear implicits.
Arguments Generator F : clear implicits.
Arguments DenoiseDiffusion F : clear implicits.

(** ** The store, the random source and the [loss] methods *)

Section process.
Context `{Scalar F} (G : Generator F).

(** What a call does to the outside world, newest first. *)
Inductive event :=
  | Randint (high n : nat)
  | RandnLike (s : list nat)
  | BernoulliSample (n : nat)
  | Forward (xt : tensor F) (t : list nat) (cond : option nat).

(** The process object, the store of the tensors held by reference, the
    position of the random source and the trace. *)
Record state := {
  self : DenoiseDiffusion F;
  heap : gmap nat (tensor F);
  rng_pos : nat;
  trace : list event;
}.

Definition M (A : Type) : Type := state → result A * state.

Definition ret {A} (a : A) : M A := λ st, (Ok a, st).

Definition bind {A B} (m : M A) (k : A → M B) : M B :=
  λ st, match m st with
        | (Ok a, st') => k a st'
        | (Raise e, st') => (Raise e, st')
        end.

Definition raise {A} (e : exn) : M A := λ st, (Raise e, st).

Definition lift {A} (r : result A) : M A := λ st, (r, st).

Notation "'let*' x ':=' m 'in' k" := (bind m (λ x, k))
  (at level 10, x pattern, m at level 100, k at level 200).

Definition get_self : M (DenoiseDiffusion F) := λ st, (Ok (self st), st).

Definition get_heap : M (gmap nat (tensor F)) := λ st, (Ok (heap st), st).

(** [self.x_shape = s]. *)
Definition set_x_shape (s : list nat) : M () := λ st,
  (Ok (), {| self := with_x_shape (self st) s; heap := heap st;
             rng_pos := rng_pos st; trace := trace st |}).

(** One sampling call: it is traced and advances the random source. *)
Definition sample (e : event) : M nat := λ st,
  (Ok (rng_pos st), {| self := self st; heap := heap st;
                       rng_pos := S (rng_pos st); trace := e :: trace st |}).

Definition log (e : event) : M () := λ st,
  (Ok (), {| self := self st; heap := heap st;
             rng_pos := rng_pos st; trace := e :: trace st |}).

Definition set_heap (h : gmap nat (tensor F)) : M () := λ st,
  (Ok (), {| self := self st; heap := h;
             rng_pos := rng_pos st; trace := trace st |}).

(** [torch.randint(high, (n,))]: needs [0 < high]. *)
Definition randint (high n : nat) : M (list nat) :=
  if high =? 0 then raise RuntimeError else
  let* pos := sample (Randint high n) in
  ret ((λ i, gen_int G pos i `mod` high) <$> seq 0 n).

(** [torch.randn_like(x)]. *)
Definition randn_like (x : tensor F) : M (tensor F) :=
  let* pos := sample (RandnLike (shape x)) in
  ret {| shape := shape x; elem := gen_normal G pos |}.

(** [self.uncond_mask_dist.sample((n, 1))]: one keep bit per batch
    element, as 1.0 or 0.0.  The attribute exists only on an object built
    with a conditioning predictor. *)
Definition Bernoulli_sample (n : nat) : M (tensor F) :=
  let* self := get_self in
  match uncond_mask_dist self with
  | None => raise AttributeError
  | Some _ =>
      let* pos := sample (BernoulliSample n) in
      ret {| shape := [n; 1];
             elem := λ idx, if gen_bernoulli G pos (hd 0 idx) then fone else fzero |}
  end.

(** Using [cond] as a tensor operand: [None] is a [TypeError]. *)
Definition deref (c : option nat) : M (nat * tensor F) :=
  match c with
  | None => raise TypeError
  | Some l =>
      let* h := get_heap in
      match h !! l with
      | Some v => ret (l, v)
      | None => raise RuntimeError
      end
  end.

(** [cond *= m]: the product is written into the tensor [cond] refers
    to. *)
Definition imul_at (c : option nat) (m : tensor F) : M () :=
  let* (l, v) := deref c in
  let* r := lift (imul v m) in
  let* h := get_heap in
  set_heap (<[l := r]> h).

(** [torch.cat([cond, torch.ones(n, 1)], dim=-1)]: the result is a new
    tensor. *)
Definition cat_ones_at (c : option nat) (n : nat) : M nat :=
  let* (_, v) := deref c in
  let* r := lift (cat_ones v n) in
  let* h := get_heap in
  let l := fresh (dom h) in
  let* _ := set_heap (<[l := r]> h) in
  ret l.

(** [self.eps_model(xt, t, cond)]. *)
Definition call_model (xt : tensor F) (t : list nat) (c : option nat) : M (tensor F) :=
  let* self := get_self in
  let* h := get_heap in
  let* _ := log (Forward xt t c) in
  lift (forward (eps_model self) xt t c h).

(** [x0.shape[0]]. *)
Definition shape0 (x : tensor F) : result nat :=
  match shape x with
  | b :: _ => Ok b
  | [] => Raise IndexError
  end.

(** [DenoiseDiffusion.loss] (lines 71-96). *)
Definition DenoiseDiffusion_loss (x0 : tensor F) (cond : option nat) : M F :=
  let* self := get_self in
  let* _ := (if x_shape self is None then set_x_shape (tail (shape x0)) else ret ()) in
  let* batch_size := lift (shape0 x0) in
  let* t := randint (T self) batch_size in
  let* (mean, std) := lift (q_xt_x0 self x0 t) in
  let* eps := randn_like x0 in
  let* xt := lift (try se := broadcast2 fmul std eps in broadcast2 fadd mean se) in
  let* _ := (if use_cond (eps_model self) then
               let* uncond_mask := Bernoulli_sample batch_size in
               imul_at cond uncond_mask
             else ret ()) in
  let* pred_eps := call_model xt t cond in
  if bool_decide (loss_type self = "l1") then lift (l1_loss pred_eps eps)
  else if bool_decide (loss_type self = "l2") then lift (mse_loss pred_eps eps)
  else raise (ValueError ("Unknown loss_type: " +:+ loss_type self)).

(** [DMDenoiseDiffusion.loss] (lines 126-155). *)
Definition DMDenoiseDiffusion_loss (x0 : tensor F) (cond : option nat)
    (preserved_horizon : option Z) : M F :=
  let* self := get_self in
  let* _ := (if x_shape self is None then set_x_shape (tail (shape x0)) else ret ()) in
  let* batch_size := lift (shape0 x0) in
  let* t := randint (T self) batch_size in
  let* (mean, std) := lift (q_xt_x0 self x0 t) in
  let* eps := randn_like x0 in
  let* xt := lift (try se := broadcast2 fmul std eps in broadcast2 fadd mean se) in
  let* xt := lift (setitem_prefix xt x0 preserved_horizon) in
  let* cond := cat_ones_at cond batch_size in
  let* _ := (if use_cond (eps_model self) then
               let* uncond_mask := Bernoulli_sample batch_size in
               imul_at (Some cond) uncond_mask
             else ret ()) in
  let* pred_eps := call_model xt t (Some cond) in
  if bool_decide (loss_type self = "l1") then lift (l1_loss pred_eps eps)
  else if bool_decide (loss_type self = "l2") then lift (mse_loss pred_eps eps)
  else raise (ValueError ("Unknown loss_type: " +:+ loss_type self)).

End process.

Arguments state F : clear implicits.
Arguments event F : clear implicits.

(** ** Vocabulary of the statements *)

Section vocabulary.
Context `{Scalar F} (G : Generator F).

(** [alphas_bar[t[b]]], the constant gathered for batch element [b]. *)
Definition alpha_bar_at (self : DenoiseDiffusion F) (t : list nat) (b : nat) : F :=
  default fzero (i ← t !! b; alphas_bar self !! i).

(** The timesteps, the noise and the keep bits a call draws when it
    starts with the random source at position [pos]. *)
Definition drawn_t (self : DenoiseDiffusion F) (pos n : nat) : list nat :=
  (λ i, gen_int G pos i `mod` T self) <$> seq 0 n.

Definition drawn_eps (pos : nat) (idx : list nat) : F := gen_normal G (S pos) idx.

Definition drawn_keep (pos b : nat) : bool := gen_bernoulli G (S (S pos)) b.

(** [mean + std * eps] at one index, for batch element [b]. *)
Definition noisy_at (self : DenoiseDiffusion F) (x0 : tensor F) (pos : nat)
    (idx : list nat) : F :=
  let ab := alpha_bar_at self (drawn_t self pos (hd 0 (shape x0))) (hd 0 idx) in
  fadd (fmul (fsqrt ab) (elem x0 idx))
       (fmul (fsqrt (fsub fone ab)) (drawn_eps pos idx)).

(** [torch.cat([cond, ones], dim=-1)] at row [b], column [j], for a
    [cond] of width [d]. *)
Definition augmented_at (v : tensor F) (d b j : nat) : F :=
  if j <? d then elem v [b; j] else fone.

(** The keep bit of batch element [b] as the mask holds it. *)
Definition keep_value (pos b : nat) : F :=
  if drawn_keep pos b then fone else fzero.

(** The object after [if self.x_shape is None: self.x_shape = ...]. *)
Definition fix_x_shape (self : DenoiseDiffusion F) (x0 : tensor F)
    : DenoiseDiffusion F :=
  match x_shape self with
  | None => with_x_shape self (tail (shape x0))
  | Some _ => self
  end.

(** Lines 89-94 and 148-153: the reduction selected by [loss_type]. *)
Definition reduce_loss (loss_type : string) (pred_eps eps : tensor F) : result F :=
  if bool_decide (loss_type = "l1") then l1_loss pred_eps eps
  else if bool_decide (loss_type = "l2") then mse_loss pred_eps eps
  else Raise (ValueError ("Unknown loss_type: " +:+ loss_type)).

(** What is left of a base [loss] call once everything that does not
    involve [cond] is done: an error, or the predictor call and the
    reduction. *)
Definition pass_cond (self : DenoiseDiffusion F) (h : gmap nat (tensor F))
    (pre : exn * state F + tensor F * list nat * tensor F * state F)
    (cond : option nat) : result F * state F :=
  match pre with
  | inl (e, st1) => (Raise e, st1)
  | inr (xt, t, eps, st1) =>
      (try pred_eps := forward (eps_model self) xt t cond h in
       reduce_loss (loss_type self) pred_eps eps,
       (log (Forward xt t cond) st1).2)
  end.

Definition prefix_state
    (pre : exn * state F + tensor F * list nat * tensor F * state F) : state F :=
  match pre with
  | inl (_, st1) => st1
  | inr (_, st1) => st1
  end.

(** Two objects that differ at most in [x_shape]. *)
Definition same_config (a b : DenoiseDiffusion F) : Prop :=
  eps_model a = eps_model b ∧ T a = T b ∧ device a = device b ∧
  loss_type a = loss_type b ∧ beta_schedule a = beta_schedule b ∧
  uncond_mask_dist a = uncond_mask_dist b ∧ betas a = betas b ∧
  alphas a = alphas b ∧ alphas_bar a = alphas_bar b ∧
  alphas_bar_prev a = alphas_bar_prev b.

(** The object can draw timesteps and gather its constants at them. *)
Definition schedule_ready (self : DenoiseDiffusion F) : Prop :=
  0 < T self ∧ T self ≤ length (alphas_bar self).

(** The contract range of [preserved_horizon] for sequences of length [n]. *)
Definition horizon_in_contract (k : option Z) (n : nat) : Prop :=
  ∃ z, k = Some z ∧ (0 < z < Z.of_nat n)%Z.

Definition is_bernoulli (e : event F) : bool :=
  match e with BernoulliSample _ => true | _ => false end.

Definition is_forward (e : event F) : bool :=
  match e with Forward _ _ _ => true | _ => false end.

End vocabulary.

(** ** [__repr__] *)

(** The values [__repr__] puts in the dictionary it hands to
    [json.dumps]. *)
Inductive json :=
  | JStr (s : string)
  | JInt (n : nat)
  | JBool (b : bool).

Definition quote : string := String (Ascii.ascii_of_nat 34) EmptyString.

Definition backslash : string := String (Ascii.ascii_of_nat 92) EmptyString.

Definition hex_digit (n : nat) : Ascii.ascii :=
  Ascii.ascii_of_nat (if n <? 10 then 48 + n else 87 + n).

(** [json.dumps] with [ensure_ascii] escapes the quote, the backslash and
    every character outside the printable ASCII range; characters are code
    points below 256. *)
Definition escape_char (c : Ascii.ascii) : string :=
  let n := Ascii.nat_of_ascii c in
  if n =? 34 then backslash +:+ quote
  else if n =? 92 then backslash +:+ backslash
  else if n =? 8 then backslash +:+ "b"
  else if n =? 12 then backslash +:+ "f"
  else if n =? 10 then backslash +:+ "n"
  else if n =? 13 then backslash +:+ "r"
  else if n =? 9 then backslash +:+ "t"
  else if (32 <=? n) && (n <=? 126) then String c EmptyString
  else backslash +:+ "u00" +:+ String (hex_digit (n / 16))
                    (String (hex_digit (n mod 16)) EmptyString).

Fixpoint escape (s : string) : string :=
  match s with
  | EmptyString => EmptyString
  | String c s => escape_char c +:+ escape s
  end.

Definition dumps_str (s : string) : string := quote +:+ escape s +:+ quote.

Definition dumps_value (v : json) : string :=
  match v with
  | JStr s => dumps_str s
  | JInt n => pretty n
  | JBool b => if b then "true" else "false"
  end.

Fixpoint join (sep : string) (l : list string) : string :=
  match l with
  | [] => ""
  | [x] => x
  | x :: l => x +:+ sep +:+ join sep l
  end.

(** [json.dumps] of a dictionary, keys in insertion order, with the
    default separators. *)
Definition dumps (d : list (string * json)) : string :=
  "{" +:+ join ", " ((λ kv, dumps_str kv.1 +:+ ": " +:+ dumps_value kv.2) <$> d)
      +:+ "}".

Section callers.
Context `{Scalar F} (G : Generator F).

(** [DenoiseDiffusion.__repr__] (lines 52-59), inherited by
    [DMDenoiseDiffusion]. *)
Definition repr (self : DenoiseDiffusion F) : string :=
  dumps [("name", JStr "Denoise Diffusion");
         ("T", JInt (T self));
         ("loss_type", JStr (loss_type self));
         ("beta_schedule", JStr (beta_schedule self));
         ("use_cond", JBool (use_cond (eps_model self)))].

(** A caller that keeps using the object, whatever a call returns or
    raises. *)
Inductive call :=
  | Loss (x0 : tensor F) (cond : option nat)
  | DMLoss (x0 : tensor F) (cond : option nat) (preserved_horizon : option Z).

Definition run_call (st : state F) (c : call) : state F :=
  match c with
  | Loss x0 cond => (DenoiseDiffusion_loss G x0 cond st).2
  | DMLoss x0 cond ph => (DMDenoiseDiffusion_loss G x0 cond ph st).2
  end.

Definition run_calls (cs : list call) (st : state F) : state F :=
  foldl run_call st cs.

End callers.

Arguments call F : clear implicits.

(** ** A concrete instance *)

(** Exact rational arithmetic, to run the model on small inputs.  Values
    are kept in lowest terms; the square root is exact on squares of
    rationals and rounded down otherwise. *)
Module Demo.

#[global] Instance Q_scalar : Scalar Q := {|
  fzero := 0%Q;
  fone := 1%Q;
  fadd := λ a b, Qred (a + b);
  fsub := λ a b, Qred (a - b);
  fmul := λ a b, Qred (a * b);
  fdiv := λ a b, Qred (a / b);
  fsqrt := λ a, Qred (Z.sqrt (Qnum a * Z.pos (Qden a)) # Qden a);
  fabs := λ a, Qred (Qabs a);
  of_nat := λ n, inject_Z (Z.of_nat n);
  fleb := Qle_bool;
|}.

(** A predictor that returns its input and ignores [cond]. *)
Definition echo (uc : bool) : Predictor Q :=
  {| use_cond := uc; forward := λ xt _ _ _, Ok xt |}.

(** The "linear" betas make [alphas_bar] start with [9/25] and [49/625],
    whose square roots and those of their complements are rational. *)
Definition utils : diffusion_utils Q :=
  {| beta_schedual_linear := λ _ T,
       take T [16 # 25; 176 # 225; 4 # 5; 9 # 10]%Q;
     beta_schedual_cosine := λ _ T, replicate T (1 # 2)%Q |}.

(** Timestep [i] for batch element [i], noise 10 everywhere, batch
    element 1 dropped. *)
Definition gen : Generator Q :=
  {| gen_int := λ _ i, i;
     gen_normal := λ _ _, 10%Q;
     gen_bernoulli := λ _ b, negb (b =? 1) |}.

(** A batch of two sequences of length three,
    [[[5; 10; 15]; [25; 50; 75]]]. *)
Definition x0 : tensor Q :=
  {| shape := [2; 3];
     elem := λ idx, match idx with
                    | [b; p] => inject_Z (Z.of_nat ((4 * b + 1) * (5 * p + 5)))
                    | _ => 0%Q
                    end |}.

(** A conditioning tensor of width two, [[[5; 6]; [105; 106]]]. *)
Definition cond : tensor Q :=
  {| shape := [2; 2];
     elem := λ idx, match idx with
                    | [b; j] => inject_Z (Z.of_nat (100 * b + j + 5))
                    | _ => 0%Q
                    end |}.

(** Four steps; [uncond_prob = 1/4] with a conditioning predictor. *)
Definition process (uc : bool) (loss_type beta_schedule : string)
    : result (DenoiseDiffusion Q) :=
  DenoiseDiffusion_init utils (echo uc) (if uc then Some (1 # 4)%Q else None) 4
    "cpu" loss_type beta_schedule [].

Definition start (self : DenoiseDiffusion Q) : state Q :=
  {| self := self; heap := {[ 0 := cond ]}; rng_pos := 0; trace := [] |}.

(** The batch the last event of a run handed to the predictor, element by
    element. *)
Definition fed (st : state Q) : option (list Q) :=
  match trace st with
  | Forward xt _ _ :: _ => Some (elem xt <$> indices (shape xt))
  | _ => None
  end.

End Demo.

(** ** Floating point *)

(** IEEE binary64 arithmetic, the kernel's primitive floats, to run the
    model on values that are not finite. *)
Module FloatDemo.

Fixpoint float_of_nat (n : nat) : float :=
  match n with
  | O => PrimFloat.zero
  | S n => PrimFloat.add (float_of_nat n) PrimFloat.one
  end.

#[global] Instance float_scalar : Scalar float := {|
  fzero := PrimFloat.zero;
  fone := PrimFloat.one;
  fadd := PrimFloat.add;
  fsub := PrimFloat.sub;
  fmul := PrimFloat.mul;
  fdiv := PrimFloat.div;
  fsqrt := PrimFloat.sqrt;
  fabs := PrimFloat.abs;
  of_nat := float_of_nat;
  fleb := PrimFloat.leb;
|}.

(** A predictor that returns its input and ignores [cond]. *)
Definition echo (uc : bool) : Predictor float :=
  {| use_cond := uc; forward := λ xt _ _ _, Ok xt |}.

(** A predictor that looks at the conditioning it is handed: it returns
    its input when entry [[1; 0]] of that tensor equals 0, and fails with
    code 1 otherwise. *)
Definition probe (uc : bool) : Predictor float :=
  {| use_cond := uc;
     forward := λ xt _ c h,
       match c ≫= (h !!.) with
       | Some cv =>
           if PrimFloat.eqb (elem cv [1; 0]) PrimFloat.zero then Ok xt
           else Raise (ModelError 1)
       | None => Ok xt
       end |}.

Definition utils : diffusion_utils float :=
  {| beta_schedual_linear := λ _ T, replicate T 0.5%float;
     beta_schedual_cosine := λ _ T, replicate T 0.5%float |}.

(** Timestep [i] for batch element [i], noise 1 everywhere, batch element
    1 dropped. *)
Definition gen : Generator float :=
  {| gen_int := λ _ i, i;
     gen_normal := λ _ _, PrimFloat.one;
     gen_bernoulli := λ _ b, negb (b =? 1) |}.

(** A batch of two sequences of length three, all ones. *)
Definition x0 : tensor float :=
  {| shape := [2; 3]; elem := λ _, PrimFloat.one |}.

(** A conditioning tensor of width two, [[[1; 1]; [inf; 1]]]. *)
Definition cond : tensor float :=
  {| shape := [2; 2];
     elem := λ idx, match idx with
                    | [1; 0] => PrimFloat.infinity
                    | _ => PrimFloat.one
                    end |}.

(** Four steps; [uncond_prob = 1/4] with a conditioning predictor. *)
Definition process (m : Predictor float) : result (DenoiseDiffusion float) :=
  DenoiseDiffusion_init utils m
    (if use_cond m then Some 0.25%float else None) 4 "cpu" "l2" "linear" [].

Definition start (self : DenoiseDiffusion float) : state float :=
  {| self := self; heap := {[ 0 := cond ]}; rng_pos := 0; trace := [] |}.

(** Row [b] of the tensor of width [w] a state holds at reference [l]. *)
Definition row (st : state float) (l b w : nat) : option (list float) :=
  (λ cv : tensor float, (λ j, elem cv [b; j]) <$> seq 0 w) <$> heap st !! l.

End FloatDemo.

(** * Properties *)

(** Zero annihilates in the rational instance. *)
Lemma Q_fmul_zero (x : Q) : fmul x fzero = fzero.
Proof.
  destruct x as [n d]. cbn [fmul fzero Demo.Q_scalar].
  unfold Qmult. cbn [Qnum Qden]. by rewrite Z.mul_0_r.
Qed.

(** ** Broadcasting *)

Section broadcasting.
Context `{Scalar F}.

Lemma broadcast_rev_refl (s : list nat) : broadcast_rev s s = Some s.
Proof.
  induction s as [|x s IH]; [done|].
  cbn [broadcast_rev]. rewrite IH, Nat.eqb_refl. done.
Qed.

Lemma broadcast_shapes_refl (s : list nat) : broadcast_shapes s s = Some s.
Proof.
  unfold broadcast_shapes. rewrite broadcast_rev_refl. cbn.
  by rewrite reverse_involutive.
Qed.

Lemma broadcast_rev_ones (l : list nat) (n : nat) :
  broadcast_rev (replicate (length l) 1 ++ [n]) (l ++ [n]) = Some (l ++ [n]).
Proof.
  induction l as [|x l IH].
  - cbn. by rewrite Nat.eqb_refl.
  - cbn [length replicate app broadcast_rev]. rewrite IH.
    destruct (1 =? x) eqn:E; [|done].
    apply Nat.eqb_eq in E. by subst.
Qed.

(** A per-batch scalar, shaped [[n, 1, ..., 1]], broadcasts over any data
    shape of the same rank. *)
Lemma broadcast_shapes_batch (n : nat) (ds : list nat) :
  broadcast_shapes (n :: replicate (length ds) 1) (n :: ds) = Some (n :: ds).
Proof.
  unfold broadcast_shapes.
  rewrite !reverse_cons, reverse_replicate, <- (length_reverse ds).
  rewrite broadcast_rev_ones. cbn.
  by rewrite reverse_app, reverse_involutive.
Qed.

Lemma broadcast_shapes_row (n d : nat) :
  broadcast_shapes [n; d] [n; 1] = Some [n; d].
Proof.
  unfold broadcast_shapes. cbn. rewrite Nat.eqb_refl.
  destruct (d =? 1) eqn:E; [|by destruct (d =? 1)].
  apply Nat.eqb_eq in E. by subst.
Qed.

Lemma bcast_index_in_range (s idx : list nat) :
  in_range s idx → bcast_index s idx = idx.
Proof.
  intros Hr. unfold bcast_index.
  rewrite (Forall2_length _ _ _ Hr), Nat.sub_diag, drop_0.
  induction Hr as [|i d idx s Hid _ IH]; [done|].
  cbn. rewrite IH. destruct (d =? 1) eqn:E; [|done].
  apply Nat.eqb_eq in E. f_equal. lia.
Qed.

Lemma hd_bcast_index (n b : nat) (s rest : list nat) :
  length rest = length s → b < n →
  hd 0 (bcast_index (n :: s) (b :: rest)) = b.
Proof.
  intros Hl Hb. unfold bcast_index. cbn [length].
  rewrite Hl, Nat.sub_diag, drop_0. cbn.
  destruct (n =? 1) eqn:E; [|done].
  apply Nat.eqb_eq in E. lia.
Qed.

Lemma in_range_cons (n b : nat) (s rest : list nat) :
  in_range (n :: s) (b :: rest) ↔ b < n ∧ in_range s rest.
Proof. unfold in_range. apply Forall2_cons. Qed.

Lemma in_range_length (s idx : list nat) : in_range s idx → length idx = length s.
Proof. apply Forall2_length. Qed.

End broadcasting.

(** ** The forward process *)

Section forward_process.
Context `{Scalar F}.

Lemma forallb_ltb (n : nat) (t : list nat) :
  Forall (λ i, i < n) t → forallb (λ i, i <? n) t = true.
Proof.
  induction 1 as [|i t Hi _ IH]; [done|].
  cbn [forallb]. rewrite IH. by apply Nat.ltb_lt in Hi as ->.
Qed.

Lemma alpha_bar_at_lookup (self : DenoiseDiffusion F) (t : list nat) (b : nat) :
  b < length t → Forall (λ i, i < length (alphas_bar self)) t →
  ∃ i a, t !! b = Some i ∧ alphas_bar self !! i = Some a ∧
         alpha_bar_at self t b = a.
Proof.
  intros Hb Ht.
  destruct (lookup_lt_is_Some_2 t b Hb) as [i Hi].
  pose proof (proj1 (Forall_lookup _ _) Ht b i Hi) as Hlt. cbn in Hlt.
  destruct (lookup_lt_is_Some_2 _ i Hlt) as [a Ha].
  exists i, a. unfold alpha_bar_at. rewrite Hi. cbn. by rewrite Ha.
Qed.

(** The outcome of [q_xt_x0] on a batch whose timesteps index
    [alphas_bar]. *)
Lemma q_xt_x0_ok (self : DenoiseDiffusion F) (x0 : tensor F) (t : list nat)
    (n : nat) (ds : list nat) :
  shape x0 = n :: ds →
  length t = n →
  Forall (λ i, i < length (alphas_bar self)) t →
  ∃ mean std,
    q_xt_x0 self x0 t = Ok (mean, std) ∧
    shape mean = shape x0 ∧
    shape std = n :: replicate (length ds) 1 ∧
    ∀ idx, in_range (shape x0) idx →
      elem mean idx
        = fmul (fsqrt (alpha_bar_at self t (hd 0 idx))) (elem x0 idx) ∧
      elem std (bcast_index (shape std) idx)
        = fsqrt (fsub fone (alpha_bar_at self t (hd 0 idx))).
Proof.
  intros Hs Hl Ht.
  assert (∀ idx, in_range (n :: ds) idx →
            hd 0 (bcast_index (n :: replicate (length ds) 1) idx) = hd 0 idx)
    as Hhd.
  { intros [|b rest] Hr; [by apply Forall2_nil_cons_inv in Hr|].
    apply in_range_cons in Hr as [Hb Hr].
    rewrite hd_bcast_index;
      [done | by rewrite length_replicate, (in_range_length _ _ Hr) | done]. }
  unfold q_xt_x0, gather, broadcast2. rewrite (forallb_ltb _ _ Ht), Hl.
  cbn [rbind shape tmap elem]. rewrite !Hs. cbn [length].
  replace (S (length ds) - 1) with (length ds) by lia.
  rewrite broadcast_shapes_batch. cbn [rbind].
  eexists _, _. split; [reflexivity|]. cbn [shape elem tmap].
  split; [done|]. split; [done|].
  intros idx Hr. rewrite (Hhd idx Hr).
  by rewrite bcast_index_in_range by done.
Qed.

(** C1. [q_xt_x0] returns [(mean, std)] with
    [mean = sqrt(alpha_bar_t) * x0] elementwise and
    [std = sqrt(1 - alpha_bar_t)], the constant being the entry of
    [alphas_bar] gathered for the batch element of the index and read
    unchanged at every trailing position, whatever the rank of the data;
    the result is a function of [x0], [t] and [alphas_bar] alone. *)
Theorem q_xt_x0_spec (self : DenoiseDiffusion F) (x0 : tensor F) (t : list nat)
    (n : nat) (ds : list nat) :
  shape x0 = n :: ds →
  length t = n →
  Forall (λ i, i < T self) t →
  T self ≤ length (alphas_bar self) →
  ∃ mean std,
    q_xt_x0 self x0 t = Ok (mean, std) ∧
    shape mean = shape x0 ∧
    shape std = n :: replicate (length ds) 1 ∧
    broadcast_shapes (shape std) (shape x0) = Some (shape x0) ∧
    (∀ idx, in_range (shape x0) idx →
       elem mean idx
         = fmul (fsqrt (alpha_bar_at self t (hd 0 idx))) (elem x0 idx) ∧
       elem std (bcast_index (shape std) idx)
         = fsqrt (fsub fone (alpha_bar_at self t (hd 0 idx))) ∧
       ∃ i a, t !! hd 0 idx = Some i ∧ alphas_bar self !! i = Some a ∧
              alpha_bar_at self t (hd 0 idx) = a) ∧
    (∀ self' : DenoiseDiffusion F,
       alphas_bar self' = alphas_bar self →
       q_xt_x0 self' x0 t = q_xt_x0 self x0 t).
Proof.
  intros Hs Hl Ht HT.
  assert (Forall (λ i, i < length (alphas_bar self)) t) as Ht'.
  { eapply Forall_impl; [exact Ht|]. cbn. lia. }
  destruct (q_xt_x0_ok self x0 t n ds Hs Hl Ht')
    as (mean & std & Hq & Hm & Hstd & He).
  exists mean, std. split; [exact Hq|]. split; [exact Hm|].
  split; [exact Hstd|]. split.
  { rewrite Hstd, Hs. apply broadcast_shapes_batch. }
  split.
  - intros idx Hr. destruct (He idx Hr) as [Hmean Hsd].
    split; [exact Hmean|]. split; [exact Hsd|].
    apply alpha_bar_at_lookup; [|exact Ht'].
    rewrite Hs in Hr. destruct idx as [|b rest].
    + by apply Forall2_nil_cons_inv in Hr.
    + apply in_range_cons in Hr as [Hb _]. cbn. lia.
  - intros self' E. unfold q_xt_x0. by rewrite E.
Qed.

End forward_process.

(** ** Construction *)

Section construction.
Context `{Scalar F} (utils : diffusion_utils F).

Lemma cumprod_from_length (acc : F) (l : list F) :
  length (cumprod_from acc l) = length l.
Proof. revert acc. induction l as [|a l IH]; intros acc; cbn; auto. Qed.

Lemma cumprod_length (l : list F) : length (cumprod l) = length l.
Proof. destruct l; cbn; [done|]. by rewrite cumprod_from_length. Qed.

Lemma cumprod_from_step (acc : F) (l : list F) (i : nat) (a : F) :
  l !! S i = Some a →
  ∃ p, cumprod_from acc l !! i = Some p ∧
       cumprod_from acc l !! S i = Some (fmul p a).
Proof.
  revert acc i. induction l as [|x l IH]; intros acc i Hl; [done|].
  destruct i as [|i].
  - destruct l as [|y l]; [done|]. injection Hl as ->.
    eexists. split; reflexivity.
  - cbn in Hl. destruct (IH (fmul acc x) i Hl) as (p & Hp & Hs).
    exists p. by split.
Qed.

(** The running product: each entry is the previous one times the next
    factor. *)
Lemma cumprod_step (l : list F) (i : nat) (a : F) :
  l !! S i = Some a →
  ∃ p, cumprod l !! i = Some p ∧ cumprod l !! S i = Some (fmul p a).
Proof.
  destruct l as [|x l]; [done|]. intros Hl. destruct i as [|i].
  - destruct l as [|y l]; [done|]. injection Hl as ->.
    eexists. split; reflexivity.
  - cbn in Hl. destruct (cumprod_from_step x l i a Hl) as (p & Hp & Hs).
    exists p. by split.
Qed.

Lemma lookup_removelast (l : list F) (i : nat) :
  S i < length l → removelast l !! i = l !! i.
Proof.
  revert i. induction l as [|x l IH]; intros i Hi; [cbn in Hi; lia|].
  destruct l as [|y l]; [cbn in Hi; lia|].
  destruct i as [|i]; [done|].
  change (removelast (x :: y :: l)) with (x :: removelast (y :: l)).
  cbn [lookup list_lookup]. apply IH. cbn in *. lia.
Qed.

(** What a successful construction stores. *)
Lemma init_inv (m : Predictor F) (up : option F) (T0 : nat)
    (dev lt bs : string) (kw : list (string * F)) (self : DenoiseDiffusion F) :
  DenoiseDiffusion_init utils m up T0 dev lt bs kw = Ok self →
  eps_model self = m ∧ T self = T0 ∧ loss_type self = lt ∧
  x_shape self = None ∧ beta_schedule self = bs ∧
  (use_cond m = true ↔ is_Some (uncond_mask_dist self)) ∧
  (use_cond m = true ↔ is_Some up) ∧
  (bs = "linear" ∧ betas self = beta_schedual_linear utils kw T0 ∨
   bs = "cosine" ∧ betas self = beta_schedual_cosine utils kw T0) ∧
  alphas self = fsub fone <$> betas self ∧
  alphas_bar self = cumprod (alphas self) ∧
  alphas_bar_prev self = fone :: removelast (alphas_bar self).
Proof.
  unfold DenoiseDiffusion_init. intros Hi.
  destruct (negb _) eqn:Ha; [done|].
  apply negb_false_iff, eqb_prop in Ha.
  assert (use_cond m = true ↔ is_Some up) as Hup.
  { rewrite <- Ha, bool_decide_eq_true. destruct up; split; try done.
    all: intros [? ?]; done. }
  destruct (use_cond m) eqn:Hu.
  - destruct up as [p|]; [|done]. cbn [rbind] in Hi.
    destruct (Bernoulli _) as [d|e]; [|done]. cbn [rbind] in Hi.
    repeat case_bool_decide; try done; cbn [rbind] in Hi;
      injection Hi as <-; cbn; split_and!; try done;
      try (split; intros; eauto; done); eauto.
  - cbn [rbind] in Hi.
    repeat case_bool_decide; try done; cbn [rbind] in Hi;
      injection Hi as <-; cbn; split_and!; try done;
      try (split; [done | intros [? ?]; done]); eauto.
Qed.

(** C6. Construction raises the assertion failure exactly when the
    presence of [uncond_prob] disagrees with [eps_model.use_cond]:
    provided without conditioning, or absent with conditioning.  The
    trajectory variant constructs through the same code. *)
Theorem init_conditioning_check (m : Predictor F) (up : option F) (T0 : nat)
    (dev lt bs : string) (kw : list (string * F)) :
  (DenoiseDiffusion_init utils m up T0 dev lt bs kw = Raise AssertionError ↔
   (is_Some up ∧ use_cond m = false) ∨ (up = None ∧ use_cond m = true)) ∧
  DMDenoiseDiffusion_init utils m up T0 dev lt bs kw
    = DenoiseDiffusion_init utils m up T0 dev lt bs kw.
Proof.
  split; [|done]. unfold DenoiseDiffusion_init, Bernoulli.
  destruct up as [p|], (use_cond m) eqn:Hu; cbn [negb Bool.eqb bool_decide rbind].
  - rewrite bool_decide_eq_true_2 by done. cbn.
    split; [|intros [[_ ?]|[? _]]; done].
    repeat (case_match; cbn [rbind]); repeat case_bool_decide; done.
  - rewrite bool_decide_eq_true_2 by done. cbn.
    split; [intros _; left; split; [by eexists | done] | done].
  - rewrite bool_decide_eq_false_2 by (intros E; by apply E). cbn.
    split; [intros _; by right | done].
  - rewrite bool_decide_eq_false_2 by (intros E; by apply E). cbn.
    split; [|intros [[[? ?] _]|[_ ?]]; done].
    repeat case_bool_decide; done.
Qed.

End construction.

(** ** Running the [loss] methods *)

(** One step of symbolic execution: unfold the monad and split on the
    innermost undetermined outcome. *)
Ltac exec_unfold :=
  unfold call_model, cat_ones_at, imul_at, deref, Bernoulli_sample,
    randn_like, randint, set_heap, log, sample, set_x_shape, get_heap,
    get_self, lift, raise, bind, ret;
  cbn beta iota delta [fst snd self heap rng_pos trace].

Ltac exec_split :=
  match goal with
  | |- context [match ?r with _ => _ end] =>
      lazymatch r with
      | match _ with _ => _ end => fail
      | (match _ with _ => _ end) _ => fail
      | _ => destruct r eqn:?
      end
  end.

Ltac exec := exec_unfold; repeat (exec_split; exec_unfold).

Section execution.
Context `{Scalar F} (G : Generator F).

Lemma same_config_refl (a : DenoiseDiffusion F) : same_config a a.
Proof. by repeat split. Qed.

Lemma same_config_x_shape (a : DenoiseDiffusion F) (s : list nat) :
  same_config (with_x_shape a s) a.
Proof. by repeat split. Qed.

(** Neither [loss] touches anything of the object but [x_shape], on any
    path. *)
Lemma loss_same_config (st : state F) (x0 : tensor F) (cond : option nat) :
  same_config (self (DenoiseDiffusion_loss G x0 cond st).2) (self st).
Proof.
  unfold DenoiseDiffusion_loss. exec;
    first [apply same_config_refl | apply same_config_x_shape].
Qed.

Lemma DM_loss_same_config (st : state F) (x0 : tensor F) (cond : option nat)
    (ph : option Z) :
  same_config (self (DMDenoiseDiffusion_loss G x0 cond ph st).2) (self st).
Proof.
  unfold DMDenoiseDiffusion_loss. exec;
    first [apply same_config_refl | apply same_config_x_shape].
Qed.

End execution.

Section runs.
Context `{Scalar F} (G : Generator F).

Lemma same_config_trans (a b c : DenoiseDiffusion F) :
  same_config a b → same_config b c → same_config a c.
Proof.
  unfold same_config. intros Hab Hbc. destruct_and!.
  split_and!; congruence.
Qed.

Lemma drawn_t_length (self : DenoiseDiffusion F) (pos n : nat) :
  length (drawn_t G self pos n) = n.
Proof. unfold drawn_t. by rewrite length_fmap, length_seq. Qed.

Lemma drawn_t_bound (self : DenoiseDiffusion F) (pos n : nat) :
  0 < T self → Forall (λ i, i < T self) (drawn_t G self pos n).
Proof.
  intros HT. unfold drawn_t. rewrite Forall_fmap.
  apply Forall_true. intros i. cbn. apply Nat.mod_upper_bound. lia.
Qed.

(** Lines 79-81 and 135-137: [xt = mean + std * eps] is computed and is
    [noisy_at] at every index of the batch. *)
Lemma noisy_ok (self : DenoiseDiffusion F) (x0 : tensor F) (pos n : nat)
    (ds : list nat) :
  shape x0 = n :: ds → schedule_ready self →
  ∃ mean std xt,
    q_xt_x0 self x0 (drawn_t G self pos n) = Ok (mean, std) ∧
    (try se := broadcast2 fmul std
                 {| shape := shape x0; elem := gen_normal G (S pos) |} in
     broadcast2 fadd mean se) = Ok xt ∧
    shape xt = shape x0 ∧
    ∀ idx, in_range (shape x0) idx → elem xt idx = noisy_at G self x0 pos idx.
Proof.
  intros Hs [HT Hlen].
  assert (Forall (λ i, i < length (alphas_bar self)) (drawn_t G self pos n))
    as Ht.
  { eapply Forall_impl; [apply (drawn_t_bound _ _ _ HT)|]. cbn. lia. }
  destruct (q_xt_x0_ok self x0 (drawn_t G self pos n) n ds Hs
              (drawn_t_length _ _ _) Ht)
    as (mean & std & Hq & Hm & Hstd & He).
  assert (broadcast_shapes (shape std) (shape x0) = Some (shape x0)) as Hb.
  { rewrite Hstd, Hs. apply broadcast_shapes_batch. }
  exists mean, std. eexists. split; [exact Hq|].
  unfold broadcast2 at 1. cbn [shape]. rewrite Hb. cbn [rbind].
  unfold broadcast2. cbn [shape]. rewrite Hm, broadcast_shapes_refl.
  split; [reflexivity|]. cbn [shape elem]. split; [done|].
  intros idx Hr. rewrite !bcast_index_in_range by done.
  destruct (He idx Hr) as (-> & ->).
  unfold noisy_at, drawn_eps. rewrite Hs in Hr |- *.
  by rewrite ?bcast_index_in_range by done.
Qed.

Lemma shape0_cons (x : tensor F) (n : nat) (ds : list nat) :
  shape x = n :: ds → shape0 x = Ok n.
Proof. unfold shape0. by intros ->. Qed.

(** Lines 87-96 and 146-155 once the predictor has answered. *)
Lemma reduce_tail (lt : string) (r : result (tensor F)) (eps : tensor F)
    (st : state F) :
  match r with
  | Ok pred_eps =>
      (if bool_decide (lt = "l1") then lift (l1_loss pred_eps eps)
       else if bool_decide (lt = "l2") then lift (mse_loss pred_eps eps)
       else raise (ValueError ("Unknown loss_type: " +:+ lt))) st
  | Raise e => (Raise e, st)
  end = (try pred_eps := r in reduce_loss lt pred_eps eps, st).
Proof.
  destruct r as [pred_eps|e]; [|done].
  unfold reduce_loss. cbn [rbind]. by repeat case_bool_decide.
Qed.

Lemma imul_row (c k : tensor F) (n d : nat) :
  shape c = [n; d] → shape k = [n; 1] →
  imul c k = Ok {| shape := [n; d];
                   elem := λ idx, fmul (elem c (bcast_index [n; d] idx))
                                       (elem k (bcast_index [n; 1] idx)) |}.
Proof.
  intros Hc Hk. unfold imul, broadcast2. rewrite Hc, Hk, broadcast_shapes_row.
  cbn [rbind shape]. by rewrite bool_decide_eq_true_2.
Qed.

(** The trajectory [loss] on a well-shaped batch and conditioning
    tensor: what reaches the predictor and what the call leaves behind. *)
Lemma DM_loss_run (st : state F) (x0 v : tensor F) (c n m d : nat)
    (ds : list nat) (ph : option Z) :
  shape x0 = n :: m :: ds →
  schedule_ready (self st) →
  heap st !! c = Some v →
  shape v = [n; d] →
  (use_cond (eps_model (self st)) = true → is_Some (uncond_mask_dist (self st))) →
  ∃ xt cv,
    let pos := rng_pos st in
    let uc := use_cond (eps_model (self st)) in
    let l := fresh (dom (heap st)) in
    let t := drawn_t G (self st) pos n in
    let eps := {| shape := shape x0; elem := gen_normal G (S pos) |} in
    let hp := <[l := cv]> (heap st) in
    DMDenoiseDiffusion_loss G x0 (Some c) ph st =
      (try pred := forward (eps_model (self st)) xt t (Some l) hp in
       reduce_loss (loss_type (self st)) pred eps,
       {| self := fix_x_shape (self st) x0;
          heap := hp;
          rng_pos := (if uc then 3 else 2) + pos;
          trace := Forward xt t (Some l)
                   :: ((if uc then [BernoulliSample n] else [])
                       ++ [RandnLike (shape x0); Randint (T (self st)) n])
                   ++ trace st |}) ∧
    shape xt = shape x0 ∧
    (∀ b p rest, p < slice_stop ph m →
       elem xt (b :: p :: rest) = elem x0 (b :: p :: rest)) ∧
    (∀ b p rest, in_range (shape x0) (b :: p :: rest) → slice_stop ph m ≤ p →
       elem xt (b :: p :: rest) = noisy_at G (self st) x0 pos (b :: p :: rest)) ∧
    shape cv = [n; d + 1] ∧
    (∀ b j, b < n → j ≤ d →
       elem cv [b; j]
         = if uc then fmul (augmented_at v d b j) (keep_value G pos b)
           else augmented_at v d b j).
Proof.
  intros Hs Hr Hc Hv Hd.
  destruct (noisy_ok (self st) x0 (rng_pos st) n (m :: ds) Hs Hr)
    as (mean & std & nz & Hq & Hnz & Hsn & Hen).
  destruct Hr as [HT Hlen].
  unfold DMDenoiseDiffusion_loss, drawn_t in *. exec_unfold.
  rewrite (shape0_cons _ _ _ Hs).
  assert ((T (self st) =? 0) = false) as -> by (apply Nat.eqb_neq; lia).
  assert (cat_ones v n = Ok {| shape := [n; d + 1];
                               elem := λ idx, match idx with
                                              | [_; j] => if j <? d then elem v idx else fone
                                              | _ => fone
                                              end |}) as Hcat.
  { unfold cat_ones. rewrite Hv. destruct n; [destruct d|]; cbn; try done.
    by rewrite Nat.eqb_refl. }
  assert (∃ xt, setitem_prefix nz x0 ph = Ok xt ∧ shape xt = shape x0 ∧
            (∀ b p rest, p < slice_stop ph m →
               elem xt (b :: p :: rest) = elem x0 (b :: p :: rest)) ∧
            (∀ b p rest, slice_stop ph m ≤ p →
               elem xt (b :: p :: rest) = elem nz (b :: p :: rest)))
    as (xt & Hset & Hsx & Hpre & Hpost).
  { unfold setitem_prefix. rewrite Hs, bool_decide_eq_true_2 by congruence.
    eexists. split; [reflexivity|]. cbn [shape elem].
    split; [congruence|]. split; intros b p rest Hp.
    - by apply Nat.ltb_lt in Hp as ->.
    - by apply Nat.ltb_ge in Hp as ->. }
  destruct (x_shape (self st)) eqn:Hx;
    cbn beta iota delta [fst snd self heap rng_pos trace];
    rewrite Hq; cbn beta iota delta [fst snd self heap rng_pos trace];
    rewrite Hnz, Hset, Hc; cbn beta iota delta [fst snd self heap rng_pos trace];
    rewrite Hcat; cbn beta iota delta [fst snd self heap rng_pos trace].
  all: destruct (use_cond (eps_model (self st))) eqn:Hu;
    [destruct (Hd eq_refl) as [pr Hpr]|];
    cbn beta iota delta [fst snd self heap rng_pos trace with_x_shape
                         uncond_mask_dist eps_model];
    rewrite ?Hpr;
    cbn beta iota delta [fst snd self heap rng_pos trace];
    rewrite ?lookup_insert_eq;
    cbn beta iota delta [fst snd self heap rng_pos trace];
    erewrite ?imul_row by reflexivity;
    cbn beta iota delta [fst snd self heap rng_pos trace with_x_shape
                         uncond_mask_dist eps_model];
    rewrite ?insert_insert_eq.
  all: exists xt; eexists;
    (split; [etrans; [apply reduce_tail|];
             unfold fix_x_shape; rewrite Hx, ?Hu; reflexivity|]).
  all: split; [exact Hsx|]; split; [exact Hpre|];
    (split; [intros; rewrite Hpost by done; by apply Hen|]);
    (split; [reflexivity|]); intros b j Hb Hj; cbn [elem];
    unfold augmented_at, keep_value, drawn_keep; try reflexivity.
  all: rewrite bcast_index_in_range
         by (repeat constructor; cbn; lia);
       rewrite (hd_bcast_index n b [1] [j]) by done; reflexivity.
Qed.

(** The base [loss] with a predictor that takes no conditioning. *)
Lemma loss_run_uncond (st : state F) (x0 : tensor F) (cond : option nat)
    (n : nat) (ds : list nat) :
  shape x0 = n :: ds →
  schedule_ready (self st) →
  use_cond (eps_model (self st)) = false →
  ∃ xt,
    let pos := rng_pos st in
    let t := drawn_t G (self st) pos n in
    let eps := {| shape := shape x0; elem := gen_normal G (S pos) |} in
    DenoiseDiffusion_loss G x0 cond st =
      (try pred := forward (eps_model (self st)) xt t cond (heap st) in
       reduce_loss (loss_type (self st)) pred eps,
       {| self := fix_x_shape (self st) x0;
          heap := heap st;
          rng_pos := 2 + pos;
          trace := Forward xt t cond :: RandnLike (shape x0)
                   :: Randint (T (self st)) n :: trace st |}) ∧
    shape xt = shape x0 ∧
    (∀ idx, in_range (shape x0) idx →
       elem xt idx = noisy_at G (self st) x0 pos idx).
Proof.
  intros Hs Hr Hu.
  destruct (noisy_ok (self st) x0 (rng_pos st) n ds Hs Hr)
    as (mean & std & xt & Hq & Hnz & Hsn & Hen).
  destruct Hr as [HT Hlen].
  unfold DenoiseDiffusion_loss, drawn_t in *. exec_unfold.
  rewrite (shape0_cons _ _ _ Hs), Hu.
  assert ((T (self st) =? 0) = false) as -> by (apply Nat.eqb_neq; lia).
  exists xt. split; [|by split].
  destruct (x_shape (self st)) eqn:Hx;
    cbn beta iota delta [fst snd self heap rng_pos trace];
    rewrite Hq; cbn beta iota delta [fst snd self heap rng_pos trace];
    rewrite Hnz;
    cbn beta iota delta [fst snd self heap rng_pos trace with_x_shape
                         eps_model];
    (etrans; [apply reduce_tail|]);
    unfold fix_x_shape; rewrite Hx; reflexivity.
Qed.

(** The base [loss] with a conditioning predictor and a [cond] of one row
    per batch element. *)
Lemma loss_run_cond (st : state F) (x0 v : tensor F) (c n d : nat)
    (ds : list nat) :
  shape x0 = n :: ds →
  schedule_ready (self st) →
  use_cond (eps_model (self st)) = true →
  is_Some (uncond_mask_dist (self st)) →
  heap st !! c = Some v →
  shape v = [n; d] →
  ∃ xt cv,
    let pos := rng_pos st in
    let t := drawn_t G (self st) pos n in
    let eps := {| shape := shape x0; elem := gen_normal G (S pos) |} in
    let hp := <[c := cv]> (heap st) in
    DenoiseDiffusion_loss G x0 (Some c) st =
      (try pred := forward (eps_model (self st)) xt t (Some c) hp in
       reduce_loss (loss_type (self st)) pred eps,
       {| self := fix_x_shape (self st) x0;
          heap := hp;
          rng_pos := 3 + pos;
          trace := Forward xt t (Some c) :: BernoulliSample n
                   :: RandnLike (shape x0) :: Randint (T (self st)) n
                   :: trace st |}) ∧
    shape xt = shape x0 ∧
    (∀ idx, in_range (shape x0) idx →
       elem xt idx = noisy_at G (self st) x0 pos idx) ∧
    shape cv = shape v ∧
    (∀ b j, b < n → j < d →
       elem cv [b; j] = fmul (elem v [b; j]) (keep_value G pos b)).
Proof.
  intros Hs Hr Hu [pr Hpr] Hc Hv.
  destruct (noisy_ok (self st) x0 (rng_pos st) n ds Hs Hr)
    as (mean & std & xt & Hq & Hnz & Hsn & Hen).
  destruct Hr as [HT Hlen].
  unfold DenoiseDiffusion_loss, drawn_t in *. exec_unfold.
  rewrite (shape0_cons _ _ _ Hs), Hu.
  assert ((T (self st) =? 0) = false) as -> by (apply Nat.eqb_neq; lia).
  exists xt. eexists. split; [|split; [done|split; [done|]]].
  - destruct (x_shape (self st)) eqn:Hx;
      cbn beta iota delta [fst snd self heap rng_pos trace];
      rewrite Hq; cbn beta iota delta [fst snd self heap rng_pos trace];
      rewrite Hnz;
      cbn beta iota delta [fst snd self heap rng_pos trace with_x_shape
                           uncond_mask_dist eps_model];
      rewrite Hpr;
      cbn beta iota delta [fst snd self heap rng_pos trace];
      rewrite Hc;
      cbn beta iota delta [fst snd self heap rng_pos trace];
      erewrite imul_row by (done || reflexivity);
      cbn beta iota delta [fst snd self heap rng_pos trace with_x_shape
                           uncond_mask_dist eps_model];
      (etrans; [apply reduce_tail|]);
      unfold fix_x_shape; rewrite Hx; reflexivity.
  - cbn [shape elem]. split; [done|]. intros b j Hb Hj.
    unfold keep_value, drawn_keep.
    rewrite bcast_index_in_range by (repeat constructor; cbn; lia).
    rewrite (hd_bcast_index n b [1] [j]) by done. reflexivity.
Qed.

End runs.

(** ** Schedule constants *)

Section schedule.
Context `{Scalar F} (utils : diffusion_utils F) (G : Generator F).

(** C2. On a constructed process [alphas_bar] is the running product of
    [1 - betas]: entry 0 is [1 - betas[0]] and entry [t] is entry [t - 1]
    times [1 - betas[t]]; [alphas_bar_prev] is 1 followed by [alphas_bar]
    shifted by one.  The constants are set by the constructor, and no
    [loss] call of either class changes them. *)
Theorem schedule_constants_spec (m : Predictor F) (up : option F) (T0 : nat)
    (dev lt bs : string) (kw : list (string * F)) (self0 : DenoiseDiffusion F) :
  DenoiseDiffusion_init utils m up T0 dev lt bs kw = Ok self0 →
  (betas self0 = beta_schedual_linear utils kw T0 ∨
   betas self0 = beta_schedual_cosine utils kw T0) ∧
  length (alphas_bar self0) = length (betas self0) ∧
  alphas_bar self0 !! 0 = fsub fone <$> betas self0 !! 0 ∧
  (∀ t b, 0 < t → betas self0 !! t = Some b →
     ∃ p, alphas_bar self0 !! (t - 1) = Some p ∧
          alphas_bar self0 !! t = Some (fmul p (fsub fone b))) ∧
  alphas_bar_prev self0 !! 0 = Some fone ∧
  (∀ t, 0 < t → t < length (betas self0) →
     is_Some (alphas_bar self0 !! (t - 1)) ∧
     alphas_bar_prev self0 !! t = alphas_bar self0 !! (t - 1)) ∧
  (∀ (st : state F) x0 cond ph,
     same_config (self st) self0 →
     same_config (self (DenoiseDiffusion_loss G x0 cond st).2) self0 ∧
     same_config (self (DMDenoiseDiffusion_loss G x0 cond ph st).2) self0).
Proof.
  intros Hi.
  destruct (init_inv utils _ _ _ _ _ _ _ _ Hi)
    as (_ & _ & _ & _ & _ & _ & _ & Hb & Ha & Hab & Hp).
  assert (length (alphas_bar self0) = length (betas self0)) as Hlen.
  { by rewrite Hab, cumprod_length, Ha, length_fmap. }
  split; [destruct Hb as [[_ ?]|[_ ?]]; auto|].
  split; [exact Hlen|].
  split.
  { rewrite Hab, Ha. by destruct (betas self0). }
  split.
  { intros [|t] b Ht Hbt; [lia|].
    replace (S t - 1) with t by lia.
    rewrite Hab. apply cumprod_step. by rewrite Ha, list_lookup_fmap, Hbt. }
  split; [by rewrite Hp|].
  split.
  { intros [|t] Ht Hlt; [lia|].
    replace (S t - 1) with t by lia.
    split; [apply lookup_lt_is_Some_2; lia|].
    rewrite Hp. change ((fone :: ?l) !! S t) with (l !! t).
    apply lookup_removelast. lia. }
  intros st x0 cond ph Hst. split.
  - eapply same_config_trans; [apply loss_same_config | exact Hst].
  - eapply same_config_trans; [apply DM_loss_same_config | exact Hst].
Qed.

End schedule.

(** [schedule_constants_spec] on the demo process with the "cosine"
    generator, [betas = [1/2; 1/2; 1/2; 1/2]]. *)
Lemma schedule_constants_witness :
  ∃ self0 : DenoiseDiffusion Q,
    Demo.process false "l2" "cosine" = Ok self0 ∧
    alphas_bar self0 = [1 # 2; 1 # 4; 1 # 8; 1 # 16]%Q ∧
    alphas_bar_prev self0 !! 0 = Some 1%Q.
Proof.
  eexists. split; [reflexivity|]. split; [reflexivity|].
  refine (proj1 (proj2 (proj2 (proj2 (proj2
    (schedule_constants_spec (H:=Demo.Q_scalar) Demo.utils Demo.gen
       (Demo.echo false) None 4 "cpu" "l2" "cosine" [] _ _))))));
  reflexivity.
Defined.

(** [q_xt_x0_spec] on the demo batch at timesteps [[0; 1]]. *)
Lemma q_xt_x0_witness :
  ∃ self0 : DenoiseDiffusion Q,
    Demo.process false "l2" "cosine" = Ok self0 ∧
    ∃ mean std,
      q_xt_x0 self0 Demo.x0 [0; 1] = Ok (mean, std) ∧
      shape mean = [2; 3] ∧ shape std = [2; 1].
Proof.
  eexists. split; [reflexivity|].
  match goal with
  | |- context [q_xt_x0 ?s _ _] =>
      destruct (q_xt_x0_spec s Demo.x0 [0; 1] 2 [3] eq_refl eq_refl
                  ltac:(repeat constructor) ltac:(cbn; lia))
        as (mean & std & Hq & Hm & Hs & _)
  end.
  exists mean, std. split; [exact Hq|]. split; [exact Hm | exact Hs].
Defined.

(** ** The trajectory variant *)

(** The events a call has added are split off the final trace. *)
Ltac split_trace :=
  first [ exists []; split; [reflexivity|]
        | eexists [_]; split; [reflexivity|]
        | eexists [_; _]; split; [reflexivity|]
        | eexists [_; _; _]; split; [reflexivity|]
        | eexists [_; _; _; _]; split; [reflexivity|] ].

Ltac in_trace H :=
  repeat (apply elem_of_cons in H as [H|H]);
  try (apply elem_of_nil in H; destruct H);
  try discriminate H.

Section trajectory.
Context `{Scalar F} (G : Generator F).

Lemma setitem_prefix_kept (nz x0 xt : tensor F) (ph : option Z) (n m : nat)
    (ds : list nat) :
  shape x0 = n :: m :: ds →
  setitem_prefix nz x0 ph = Ok xt →
  ∀ b p rest, p < slice_stop ph m →
    elem xt (b :: p :: rest) = elem x0 (b :: p :: rest).
Proof.
  unfold setitem_prefix. intros -> Hset b p rest Hp.
  case_bool_decide; [|done]. injection Hset as <-. cbn [elem].
  by apply Nat.ltb_lt in Hp as ->.
Qed.

Lemma slice_stop_in_contract (k : Z) (m p : nat) :
  (0 < k < Z.of_nat m)%Z → (Z.of_nat p < k)%Z → p < slice_stop (Some k) m.
Proof.
  intros Hk Hp. unfold slice_stop.
  destruct (k <? 0)%Z eqn:E; [apply Z.ltb_lt in E|]; lia.
Qed.

(** C3. In [DMDenoiseDiffusion.loss] with
    [0 < preserved_horizon < sequence_length], whatever the random source
    draws: every [xt] the call hands to the predictor equals [x0] at every
    position [p < preserved_horizon] of the sequence axis, for every batch
    element; and on a well-shaped batch and [cond] the predictor is called,
    once, with such an [xt]. *)
Theorem DM_loss_prefix_preserved (st : state F) (x0 v : tensor F)
    (c n m d : nat) (ds : list nat) (k : Z) :
  shape x0 = n :: m :: ds →
  (0 < k < Z.of_nat m)%Z →
  (∀ cond, ∃ evs,
     trace (DMDenoiseDiffusion_loss G x0 cond (Some k) st).2 = evs ++ trace st ∧
     ∀ xt t c', Forward xt t c' ∈ evs →
       ∀ b p rest, (Z.of_nat p < k)%Z →
         elem xt (b :: p :: rest) = elem x0 (b :: p :: rest)) ∧
  (schedule_ready (self st) →
   heap st !! c = Some v →
   shape v = [n; d] →
   (use_cond (eps_model (self st)) = true → is_Some (uncond_mask_dist (self st))) →
   ∃ xt t l evs,
     trace (DMDenoiseDiffusion_loss G x0 (Some c) (Some k) st).2
       = Forward xt t (Some l) :: evs ++ trace st ∧
     Forall (λ e, is_forward e = false) evs ∧
     shape xt = shape x0 ∧
     ∀ b p rest, (Z.of_nat p < k)%Z →
       elem xt (b :: p :: rest) = elem x0 (b :: p :: rest)).
Proof.
  intros Hs Hk. split.
  - intros cond. unfold DMDenoiseDiffusion_loss. exec; split_trace;
      intros ? ? ? Hin ? ? ? Hp; in_trace Hin;
      injection Hin as -> -> ->;
      eapply setitem_prefix_kept; eauto using slice_stop_in_contract.
  - intros Hr Hc Hv Hd.
    destruct (DM_loss_run G st x0 v c n m d ds (Some k) Hs Hr Hc Hv Hd)
      as (xt & cv & Hrun & Hsx & Hpre & _).
    cbn zeta in Hrun. rewrite Hrun. cbn [snd trace].
    eexists xt, _, _, _. split; [reflexivity|].
    split; [|split; [exact Hsx|]].
    + destruct (use_cond _); repeat constructor.
    + intros b p rest Hp. apply Hpre. by apply slice_stop_in_contract.
Qed.

(** C4. In [DMDenoiseDiffusion.loss] on a [cond] of width [d]: the
    predictor is called once, with a reference to a new tensor of width
    [d + 1] in the store it is called with; before masking the last column
    of that tensor is 1 and the other columns are those of [cond]; without
    a conditioning predictor it is passed as it is, and with one every
    component is multiplied by the keep bit of its batch element.  Where
    that bit is 0 a component is therefore its value times zero: zero
    whenever that product is zero, as it is for the flag and for every
    finite entry of [cond]. *)
Theorem DM_loss_cond_flag (st : state F) (x0 v : tensor F) (c n m d : nat)
    (ds : list nat) (ph : option Z) :
  shape x0 = n :: m :: ds →
  schedule_ready (self st) →
  heap st !! c = Some v →
  shape v = [n; d] →
  (use_cond (eps_model (self st)) = true → is_Some (uncond_mask_dist (self st))) →
  ∃ xt t l evs pre cv st',
    DMDenoiseDiffusion_loss G x0 (Some c) ph st
      = (try pred_eps := forward (eps_model (self st)) xt t (Some l)
                           (heap st') in
         reduce_loss (loss_type (self st)) pred_eps
           {| shape := shape x0; elem := drawn_eps G (rng_pos st) |},
         st') ∧
    trace st' = Forward xt t (Some l) :: evs ++ trace st ∧
    Forall (λ e, is_forward e = false) evs ∧
    (l ∉ dom (heap st)) ∧
    (heap st' !! l = Some cv) ∧
    cat_ones v n = Ok pre ∧
    shape pre = [n; d + 1] ∧
    shape cv = [n; d + 1] ∧
    (∀ b, elem pre [b; d] = fone) ∧
    (∀ b j, j < d → elem pre [b; j] = elem v [b; j]) ∧
    (use_cond (eps_model (self st)) = false →
       ∀ b j, b < n → j ≤ d → elem cv [b; j] = elem pre [b; j]) ∧
    (use_cond (eps_model (self st)) = true →
       ∀ b j, b < n → j ≤ d →
         elem cv [b; j] = fmul (elem pre [b; j]) (keep_value G (rng_pos st) b) ∧
         (drawn_keep G (rng_pos st) b = false →
          elem cv [b; j] = fmul (elem pre [b; j]) fzero ∧
          (fmul (elem pre [b; j]) fzero = fzero → elem cv [b; j] = fzero))).
Proof.
  intros Hs Hr Hc Hv Hd.
  destruct (DM_loss_run G st x0 v c n m d ds ph Hs Hr Hc Hv Hd)
    as (xt & cv & Hrun & _ & _ & _ & Hscv & Hcv).
  cbn zeta in Hrun. rewrite Hrun.
  assert (cat_ones v n = Ok {| shape := [n; d + 1];
                               elem := λ idx, match idx with
                                              | [_; j] => if j <? d then elem v idx else fone
                                              | _ => fone
                                              end |}) as Hcat.
  { unfold cat_ones. rewrite Hv. destruct n; [destruct d|]; cbn; try done.
    by rewrite Nat.eqb_refl. }
  lazymatch goal with
  | |- context [@pair (result F) (state F) _ ?S] =>
      eexists xt, _, _, _, _, cv, S
  end.
  split; [reflexivity|]. cbn [trace heap].
  split; [reflexivity|].
  split; [destruct (use_cond _); repeat constructor|].
  split; [apply is_fresh|].
  split; [apply lookup_insert_eq|].
  split; [exact Hcat|]. cbn [shape elem].
  split; [done|]. split; [exact Hscv|].
  split; [intros b; by rewrite Nat.ltb_irrefl|].
  split; [intros b j Hj; by apply Nat.ltb_lt in Hj as ->|].
  split; intros Hu b j Hb Hj; rewrite (Hcv b j Hb Hj), Hu.
  - reflexivity.
  - split; [reflexivity|]. intros Hk.
    assert (keep_value G (rng_pos st) b = fzero) as ->.
    { unfold keep_value. by rewrite Hk. }
    split; [reflexivity|]. intros Hz. exact Hz.
Qed.

End trajectory.

(** [DM_loss_prefix_preserved] on the demo batch with
    [preserved_horizon = 1]. *)
Lemma DM_loss_prefix_preserved_witness :
  ∃ self0 : DenoiseDiffusion Q,
    Demo.process true "l2" "linear" = Ok self0 ∧
    ∃ xt t l evs,
      trace (DMDenoiseDiffusion_loss Demo.gen Demo.x0 (Some 0) (Some 1%Z)
               (Demo.start self0)).2
        = Forward xt t (Some l) :: evs ++ [] ∧
      elem xt [1; 0] = elem Demo.x0 [1; 0].
Proof.
  eexists. split; [reflexivity|].
  match goal with
  | |- context [Demo.start ?s] =>
      destruct (proj2 (DM_loss_prefix_preserved Demo.gen (Demo.start s)
                         Demo.x0 Demo.cond 0 2 3 2 [] 1
                         eq_refl ltac:(lia))
                  ltac:(split; cbn; lia) eq_refl eq_refl
                  ltac:(intros _; eexists; reflexivity))
        as (xt & t & l & evs & Ht & _ & _ & Hp)
  end.
  exists xt, t, l, evs. split; [exact Ht|].
  apply Hp. lia.
Defined.

(** C4 as the spec states it fails on floats: batch element 1 is dropped
    and its [cond] holds an infinity, so at the predictor's input that
    entry is [inf * 0], not a number and not 0: the predictor that checks
    it fails, and the row it was handed is [[nan; 0; 0]]. *)
Lemma DM_loss_cond_flag_counterexample :
  ∃ self0 : DenoiseDiffusion float,
    FloatDemo.process (FloatDemo.probe true) = Ok self0 ∧
    drawn_keep FloatDemo.gen 0 1 = false ∧
    heap (FloatDemo.start self0) !! 1 = None ∧
    (DMDenoiseDiffusion_loss FloatDemo.gen FloatDemo.x0 (Some 0) (Some 1%Z)
       (FloatDemo.start self0)).1 = Raise (ModelError 1) ∧
    FloatDemo.row
      (DMDenoiseDiffusion_loss FloatDemo.gen FloatDemo.x0 (Some 0) (Some 1%Z)
         (FloatDemo.start self0)).2 1 1 3
      = Some [PrimFloat.nan; PrimFloat.zero; PrimFloat.zero] ∧
    PrimFloat.eqb PrimFloat.nan PrimFloat.zero = false.
Proof.
  eexists. split; [reflexivity|]. split; [reflexivity|].
  split; [reflexivity|]. split; [vm_compute; reflexivity|].
  split; vm_compute; reflexivity.
Qed.

(** [DM_loss_cond_flag] on the demo batch: batch element 1 is dropped, and
    its flag is 0 at the predictor's input. *)
Lemma DM_loss_cond_flag_witness :
  ∃ self0 : DenoiseDiffusion Q,
    Demo.process true "l2" "linear" = Ok self0 ∧
    ∃ l cv,
      heap (DMDenoiseDiffusion_loss Demo.gen Demo.x0 (Some 0) (Some 1%Z)
              (Demo.start self0)).2 !! l = Some cv ∧
      shape cv = [2; 3] ∧
      elem cv [1; 2] = 0%Q.
Proof.
  eexists. split; [reflexivity|].
  match goal with
  | |- context [Demo.start ?s] =>
      destruct (DM_loss_cond_flag (H:=Demo.Q_scalar) Demo.gen (Demo.start s) Demo.x0 Demo.cond
                  0 2 3 2 [] (Some 1%Z)
                  eq_refl
                  ltac:(split; cbn; lia) eq_refl eq_refl
                  ltac:(intros _; eexists; reflexivity))
        as (xt & t & l & evs & pre & cv & st' & Hrun & _ & _ & _ & Hl & _ & _
            & Hs & _ & _ & _ & Hm)
  end.
  exists l, cv. rewrite Hrun. cbn [snd].
  split; [exact Hl|]. split; [exact Hs|].
  apply (Hm eq_refl 1 2); [lia | lia | reflexivity | apply Q_fmul_zero].
Defined.

(** ** A horizon outside the contract range *)

Section horizon.
Context `{Scalar F} (G : Generator F).

Lemma slice_stop_beyond (z : Z) (m : nat) :
  (Z.of_nat m ≤ z)%Z → slice_stop (Some z) m = m.
Proof.
  intros Hz. unfold slice_stop.
  destruct (z <? 0)%Z eqn:E; [apply Z.ltb_lt in E|]; lia.
Qed.

(** C7, as the code has it.  [preserved_horizon] is only ever used as the
    slice bound [:preserved_horizon], so no value of it makes the call
    fail: on a well-shaped batch and [cond] the predictor is called and the
    outcome is that of the predictor and the reduction.  The first
    [slice_stop] positions of [xt] are those of [x0] and the others are
    noised; a horizon at or beyond the sequence length, or [None], silently
    preserves the whole sequence, and 0 silently preserves nothing. *)
Theorem DM_loss_horizon_clamped (st : state F) (x0 v : tensor F)
    (c n m d : nat) (ds : list nat) (ph : option Z) :
  shape x0 = n :: m :: ds →
  schedule_ready (self st) →
  heap st !! c = Some v →
  shape v = [n; d] →
  (use_cond (eps_model (self st)) = true → is_Some (uncond_mask_dist (self st))) →
  ∃ xt t l evs eps,
    let r := DMDenoiseDiffusion_loss G x0 (Some c) ph st in
    trace r.2 = Forward xt t (Some l) :: evs ++ trace st ∧
    r.1 = (try pred := forward (eps_model (self st)) xt t (Some l) (heap r.2) in
           reduce_loss (loss_type (self st)) pred eps) ∧
    (∀ b p rest, in_range (shape x0) (b :: p :: rest) →
       elem xt (b :: p :: rest)
         = if p <? slice_stop ph m then elem x0 (b :: p :: rest)
           else noisy_at G (self st) x0 (rng_pos st) (b :: p :: rest)) ∧
    ((ph = None ∨ ∃ z, ph = Some z ∧ (Z.of_nat m ≤ z)%Z) →
       ∀ b p rest, in_range (shape x0) (b :: p :: rest) →
         elem xt (b :: p :: rest) = elem x0 (b :: p :: rest)) ∧
    (ph = Some 0%Z →
       ∀ b p rest, in_range (shape x0) (b :: p :: rest) →
         elem xt (b :: p :: rest)
           = noisy_at G (self st) x0 (rng_pos st) (b :: p :: rest)).
Proof.
  intros Hs Hr Hc Hv Hd.
  destruct (DM_loss_run G st x0 v c n m d ds ph Hs Hr Hc Hv Hd)
    as (xt & cv & Hrun & _ & Hpre & Hpost & _).
  cbn zeta in Hrun. cbn zeta. rewrite Hrun. cbn [fst snd trace heap].
  eexists xt, _, _, _, _. split; [reflexivity|]. split; [reflexivity|].
  assert (∀ b p rest, in_range (shape x0) (b :: p :: rest) →
            elem xt (b :: p :: rest)
              = if p <? slice_stop ph m then elem x0 (b :: p :: rest)
                else noisy_at G (self st) x0 (rng_pos st) (b :: p :: rest))
    as Hxt.
  { intros b p rest Hin. destruct (p <? slice_stop ph m) eqn:E.
    - apply Nat.ltb_lt in E. by apply Hpre.
    - apply Nat.ltb_ge in E. by apply Hpost. }
  split; [exact Hxt|]. split.
  - intros Hph b p rest Hin. rewrite (Hxt b p rest Hin).
    assert (slice_stop ph m = m) as ->.
    { destruct Hph as [->|(z & -> & Hz)]; [done|by apply slice_stop_beyond]. }
    rewrite Hs in Hin. apply in_range_cons in Hin as [_ Hin].
    apply in_range_cons in Hin as [Hp _]. by apply Nat.ltb_lt in Hp as ->.
  - intros -> b p rest Hin. by rewrite (Hxt b p rest Hin).
Qed.

End horizon.

(** C7 as the spec states it fails: with sequences of length 3 and
    [preserved_horizon = 5] the call returns a loss, the mean of the squares
    of [x0 - 10], and the [xt] handed to the predictor is [x0] at every
    position although the noised batch differs from it everywhere. *)
Lemma DM_loss_horizon_counterexample :
  ∃ self0 : DenoiseDiffusion Q,
    Demo.process false "l2" "linear" = Ok self0 ∧
    ¬ horizon_in_contract (Some 5%Z) 3 ∧
    let r := DMDenoiseDiffusion_loss Demo.gen Demo.x0 (Some 0) (Some 5%Z)
               (Demo.start self0) in
    r.1 = Ok (3050 # 3)%Q ∧
    elem Demo.x0 <$> indices [2; 3] = [5; 10; 15; 25; 50; 75]%Q ∧
    noisy_at Demo.gen self0 Demo.x0 0 <$> indices [2; 3]
      = [11; 14; 17; 83 # 5; 118 # 5; 153 # 5]%Q ∧
    Demo.fed r.2 = Some [5; 10; 15; 25; 50; 75]%Q.
Proof.
  eexists. split; [reflexivity|].
  split; [intros (z & [= <-] & Hz); lia|].
  repeat split; vm_compute; reflexivity.
Qed.

(** [DM_loss_horizon_clamped] on the demo batch with
    [preserved_horizon = 5]. *)
Lemma DM_loss_horizon_clamped_witness :
  ∃ self0 : DenoiseDiffusion Q,
    Demo.process false "l2" "linear" = Ok self0 ∧
    ∃ xt t l evs,
      trace (DMDenoiseDiffusion_loss Demo.gen Demo.x0 (Some 0) (Some 5%Z)
               (Demo.start self0)).2
        = Forward xt t (Some l) :: evs ++ [] ∧
      elem xt [1; 2] = elem Demo.x0 [1; 2].
Proof.
  eexists. split; [reflexivity|].
  match goal with
  | |- context [Demo.start ?s] =>
      destruct (DM_loss_horizon_clamped Demo.gen (Demo.start s) Demo.x0
                  Demo.cond 0 2 3 2 [] (Some 5%Z) eq_refl
                  ltac:(split; vm_compute; lia) eq_refl eq_refl
                  ltac:(intros [=]))
        as (xt & t & l & evs & eps & Ht & _ & _ & Hall & _)
  end.
  exists xt, t, l, evs. split; [exact Ht|].
  apply Hall.
  - right. exists 5%Z. split; [reflexivity | lia].
  - repeat constructor.
Defined.

(** ** Aliasing of [cond] *)

Section aliasing.
Context `{Scalar F} (G : Generator F).

Lemma fresh_ne (h : gmap nat (tensor F)) (l : nat) (w : tensor F) :
  h !! l = Some w → fresh (dom h) ≠ l.
Proof.
  intros Hl <-. apply (is_fresh (dom h)). by apply elem_of_dom_2 in Hl.
Qed.

(** The trajectory [loss] never writes to a tensor that existed before
    the call, on any path. *)
Lemma DM_loss_frame (st : state F) (x0 : tensor F) (cond : option nat)
    (ph : option Z) (l : nat) (w : tensor F) :
  heap st !! l = Some w →
  heap (DMDenoiseDiffusion_loss G x0 cond ph st).2 !! l = Some w.
Proof.
  intros Hl. pose proof (fresh_ne _ _ _ Hl) as Hne.
  unfold DMDenoiseDiffusion_loss. exec;
    by rewrite ?lookup_insert_ne by done.
Qed.

(** C9. The base [loss] with a conditioning predictor multiplies the
    caller's [cond] tensor itself by the mask: the predictor is handed the
    caller's reference in a store that holds, at that reference, every
    entry of [cond] times the keep bit of its batch element, and that is
    what the caller's tensor holds after the call.  Where the bit is 0 the
    entry is the old entry times zero: zero whenever that product is zero,
    as it is for every finite value.  The trajectory [loss] instead
    allocates a new tensor for the concatenation, masks that one, hands it
    to the predictor and leaves the caller's [cond] as it was; on no path
    does it change a tensor that existed before the call. *)
Theorem loss_masks_in_place (st : state F) (x0 v : tensor F) (c n d : nat)
    (ds : list nat) :
  shape x0 = n :: ds →
  schedule_ready (self st) →
  use_cond (eps_model (self st)) = true →
  is_Some (uncond_mask_dist (self st)) →
  heap st !! c = Some v →
  shape v = [n; d] →
  (∃ xt t cv st',
     DenoiseDiffusion_loss G x0 (Some c) st
       = (try pred_eps := forward (eps_model (self st)) xt t (Some c)
                            (heap st') in
          reduce_loss (loss_type (self st)) pred_eps
            {| shape := shape x0; elem := drawn_eps G (rng_pos st) |},
          st') ∧
     trace st' = Forward xt t (Some c) :: BernoulliSample n
                 :: RandnLike (shape x0) :: Randint (T (self st)) n
                 :: trace st ∧
     heap st' = <[c := cv]> (heap st) ∧
     shape cv = shape v ∧
     (∀ b j, b < n → j < d →
        elem cv [b; j] = fmul (elem v [b; j]) (keep_value G (rng_pos st) b) ∧
        (drawn_keep G (rng_pos st) b = false →
         elem cv [b; j] = fmul (elem v [b; j]) fzero ∧
         (fmul (elem v [b; j]) fzero = fzero → elem cv [b; j] = fzero)))) ∧
  (∀ x0' m ds' ph,
     shape x0' = n :: m :: ds' →
     ∃ xt t l cv st',
       DMDenoiseDiffusion_loss G x0' (Some c) ph st
         = (try pred_eps := forward (eps_model (self st)) xt t (Some l)
                              (heap st') in
            reduce_loss (loss_type (self st)) pred_eps
              {| shape := shape x0'; elem := drawn_eps G (rng_pos st) |},
            st') ∧
       trace st' = Forward xt t (Some l) :: BernoulliSample n
                   :: RandnLike (shape x0') :: Randint (T (self st)) n
                   :: trace st ∧
       (l ∉ dom (heap st)) ∧
       heap st' = <[l := cv]> (heap st) ∧
       (heap st' !! c = Some v) ∧
       shape cv = [n; d + 1] ∧
       (∀ b j, b < n → j ≤ d →
          elem cv [b; j]
            = fmul (augmented_at v d b j) (keep_value G (rng_pos st) b))) ∧
  (∀ x0' cond ph l w,
     heap st !! l = Some w →
     heap (DMDenoiseDiffusion_loss G x0' cond ph st).2 !! l = Some w).
Proof.
  intros Hs Hr Hu Hd Hc Hv. split; [|split].
  - destruct (loss_run_cond G st x0 v c n d ds Hs Hr Hu Hd Hc Hv)
      as (xt & cv & Hrun & _ & _ & Hscv & Hcv).
    cbn zeta in Hrun. rewrite Hrun.
    lazymatch goal with
    | |- context [@pair (result F) (state F) _ ?S] => eexists xt, _, cv, S
    end.
    split; [reflexivity|]. cbn [trace heap].
    split; [reflexivity|]. split; [reflexivity|]. split; [exact Hscv|].
    intros b j Hb Hj. split; [by apply Hcv|].
    intros Hk.
    assert (elem cv [b; j] = fmul (elem v [b; j]) fzero) as Hz.
    { rewrite (Hcv b j Hb Hj). unfold keep_value. by rewrite Hk. }
    split; [exact Hz|]. intros Hzero. by rewrite Hz.
  - intros x0' m ds' ph Hs'.
    destruct (DM_loss_run G st x0' v c n m d ds' ph Hs' Hr Hc Hv)
      as (xt & cv & Hrun & _ & _ & _ & Hscv & Hcv); [done|].
    cbn zeta in Hrun. rewrite Hrun, Hu.
    lazymatch goal with
    | |- context [@pair (result F) (state F) _ ?S] => eexists xt, _, _, cv, S
    end.
    split; [reflexivity|]. cbn [trace heap app].
    split; [reflexivity|].
    split; [apply is_fresh|].
    split; [reflexivity|].
    split; [by rewrite lookup_insert_ne by (by eapply fresh_ne)|].
    split; [exact Hscv|].
    intros b j Hb Hj. by rewrite (Hcv b j Hb Hj), Hu.
  - intros x0' cond ph l w Hl. by apply DM_loss_frame.
Qed.

End aliasing.

(** C9 as the spec states it fails on floats: batch element 1 is dropped
    and its [cond] holds an infinity; after the base [loss] has returned a
    loss, the caller's tensor holds [inf * 0], not a number, at that
    entry, not 0. *)
Lemma loss_masks_in_place_counterexample :
  ∃ self0 : DenoiseDiffusion float,
    FloatDemo.process (FloatDemo.echo true) = Ok self0 ∧
    drawn_keep FloatDemo.gen 0 1 = false ∧
    FloatDemo.row (FloatDemo.start self0) 0 1 2
      = Some [PrimFloat.infinity; PrimFloat.one] ∧
    is_ok (DenoiseDiffusion_loss FloatDemo.gen FloatDemo.x0 (Some 0)
             (FloatDemo.start self0)).1 = true ∧
    FloatDemo.row
      (DenoiseDiffusion_loss FloatDemo.gen FloatDemo.x0 (Some 0)
         (FloatDemo.start self0)).2 0 1 2
      = Some [PrimFloat.nan; PrimFloat.zero] ∧
    PrimFloat.eqb PrimFloat.nan PrimFloat.zero = false.
Proof.
  eexists. split; [reflexivity|]. split; [reflexivity|].
  split; [reflexivity|]. split; [vm_compute; reflexivity|].
  split; vm_compute; reflexivity.
Qed.

(** [loss_masks_in_place] on the demo batch: row 1 of the caller's tensor,
    dropped by the generator, holds zeros after the call. *)
Lemma loss_masks_in_place_witness :
  ∃ self0 : DenoiseDiffusion Q,
    Demo.process true "l2" "linear" = Ok self0 ∧
    ∃ cv,
      heap (DenoiseDiffusion_loss Demo.gen Demo.x0 (Some 0)
              (Demo.start self0)).2 !! 0 = Some cv ∧
      elem Demo.cond [1; 0] = 105%Q ∧
      elem cv [1; 0] = 0%Q.
Proof.
  eexists. split; [reflexivity|].
  match goal with
  | |- context [Demo.start ?s] =>
      destruct (proj1 (loss_masks_in_place (H:=Demo.Q_scalar) Demo.gen
                  (Demo.start s) Demo.x0 Demo.cond 0 2 2 [3]
                  eq_refl
                  ltac:(split; vm_compute; lia) eq_refl
                  ltac:(eexists; reflexivity) eq_refl eq_refl))
        as (xt & t & cv & st' & Hrun & _ & Hh & _ & Hm)
  end.
  exists cv. rewrite Hrun. cbn [snd]. rewrite Hh.
  split; [apply lookup_insert_eq|]. split; [reflexivity|].
  apply (Hm 1 0); [lia | lia | reflexivity | apply Q_fmul_zero].
Defined.

(** ** [cond = None] *)

Section cond_none.
Context `{Scalar F} (G : Generator F).

Lemma loss_none_TypeError (st : state F) (x0 : tensor F) (n : nat)
    (ds : list nat) :
  shape x0 = n :: ds →
  schedule_ready (self st) →
  use_cond (eps_model (self st)) = true →
  is_Some (uncond_mask_dist (self st)) →
  (DenoiseDiffusion_loss G x0 None st).1 = Raise TypeError.
Proof.
  intros Hs Hr Hu [pr Hpr].
  destruct (noisy_ok G (self st) x0 (rng_pos st) n ds Hs Hr)
    as (mean & std & xt & Hq & Hnz & _).
  destruct Hr as [HT Hlen].
  unfold DenoiseDiffusion_loss, drawn_t in *. exec_unfold.
  rewrite (shape0_cons _ _ _ Hs), Hu.
  assert ((T (self st) =? 0) = false) as -> by (apply Nat.eqb_neq; lia).
  destruct (x_shape (self st));
    cbn beta iota delta [fst snd self heap rng_pos trace];
    rewrite Hq; cbn beta iota delta [fst snd self heap rng_pos trace];
    rewrite Hnz;
    cbn beta iota delta [fst snd self heap rng_pos trace with_x_shape
                         uncond_mask_dist];
    rewrite Hpr; reflexivity.
Qed.

Lemma DM_loss_none_TypeError (st : state F) (x0 : tensor F) (ph : option Z)
    (n m : nat) (ds : list nat) :
  shape x0 = n :: m :: ds →
  schedule_ready (self st) →
  (DMDenoiseDiffusion_loss G x0 None ph st).1 = Raise TypeError.
Proof.
  intros Hs Hr.
  destruct (noisy_ok G (self st) x0 (rng_pos st) n (m :: ds) Hs Hr)
    as (mean & std & nz & Hq & Hnz & Hsn & _).
  destruct Hr as [HT Hlen].
  unfold DMDenoiseDiffusion_loss, drawn_t in *. exec_unfold.
  rewrite (shape0_cons _ _ _ Hs).
  assert ((T (self st) =? 0) = false) as -> by (apply Nat.eqb_neq; lia).
  assert (∃ xt, setitem_prefix nz x0 ph = Ok xt) as [xt Hset].
  { unfold setitem_prefix. rewrite Hs, bool_decide_eq_true_2 by congruence.
    by eexists. }
  destruct (x_shape (self st));
    cbn beta iota delta [fst snd self heap rng_pos trace];
    rewrite Hq; cbn beta iota delta [fst snd self heap rng_pos trace];
    rewrite Hnz, Hset; reflexivity.
Qed.

(** C10. With [cond = None] the call raises before the predictor is
    called: in the base [loss] whenever the predictor takes conditioning,
    in the trajectory [loss] always.  On a batch the schedule can serve the
    error is the [TypeError] of using [None] as a tensor, in the mask
    product and in the concatenation respectively. *)
Theorem loss_cond_none (st : state F) (x0 : tensor F) (ph : option Z) :
  (use_cond (eps_model (self st)) = true →
   (∃ evs,
      trace (DenoiseDiffusion_loss G x0 None st).2 = evs ++ trace st ∧
      Forall (λ e, is_forward e = false) evs ∧
      ∃ e, (DenoiseDiffusion_loss G x0 None st).1 = Raise e) ∧
   (∀ n ds,
      shape x0 = n :: ds →
      schedule_ready (self st) →
      is_Some (uncond_mask_dist (self st)) →
      (DenoiseDiffusion_loss G x0 None st).1 = Raise TypeError)) ∧
  (∃ evs,
     trace (DMDenoiseDiffusion_loss G x0 None ph st).2 = evs ++ trace st ∧
     Forall (λ e, is_forward e = false) evs ∧
     ∃ e, (DMDenoiseDiffusion_loss G x0 None ph st).1 = Raise e) ∧
  (∀ n m ds,
     shape x0 = n :: m :: ds →
     schedule_ready (self st) →
     (DMDenoiseDiffusion_loss G x0 None ph st).1 = Raise TypeError).
Proof.
  split; [intros Hu; split|split].
  - unfold DenoiseDiffusion_loss. exec_unfold. rewrite Hu. exec;
      split_trace; (split; [repeat constructor | by eexists]).
  - intros n ds Hs Hr Hd. by eapply loss_none_TypeError.
  - unfold DMDenoiseDiffusion_loss. exec;
      split_trace; (split; [repeat constructor | by eexists]).
  - intros n m ds Hs Hr. by eapply DM_loss_none_TypeError.
Qed.

End cond_none.

(** [loss_cond_none] on the demo batch. *)
Lemma loss_cond_none_witness :
  ∃ self0 : DenoiseDiffusion Q,
    Demo.process true "l2" "linear" = Ok self0 ∧
    (DenoiseDiffusion_loss Demo.gen Demo.x0 None (Demo.start self0)).1
      = Raise TypeError ∧
    (DMDenoiseDiffusion_loss Demo.gen Demo.x0 None (Some 1%Z)
       (Demo.start self0)).1 = Raise TypeError.
Proof.
  eexists. split; [reflexivity|].
  match goal with
  | |- context [Demo.start ?s] =>
      destruct (loss_cond_none Demo.gen (Demo.start s) Demo.x0 (Some 1%Z))
        as (Hb & _ & Hd)
  end.
  split.
  - apply (proj2 (Hb eq_refl) 2 [3] eq_refl);
      [split; vm_compute; lia | eexists; reflexivity].
  - apply (Hd 2 3 [] eq_refl). split; vm_compute; lia.
Defined.

(** ** The reduction and the use of [cond] *)

(** Symbolic execution that leaves the reduction, and on request the
    predictor, folded. *)
Ltac exec_split_body keep_forward :=
  match goal with
  | |- context [match ?r with _ => _ end] =>
      lazymatch r with
      | match _ with _ => _ end => fail
      | (match _ with _ => _ end) _ => fail
      | bool_decide _ => fail
      | forward _ _ _ _ _ =>
          lazymatch keep_forward with
          | true => fail
          | false => destruct r eqn:?
          end
      | _ => destruct r eqn:?
      end
  end.

Ltac exec_body keep_forward :=
  exec_unfold; repeat (exec_split_body keep_forward; exec_unfold).

Section reduction.
Context `{Scalar F} (utils : diffusion_utils F) (G : Generator F).

(** On every path the base [loss] is the reduction of what the predictor
    returned against the drawn noise, or an earlier error. *)
Lemma loss_reduce_form (st : state F) (x0 : tensor F) (cond : option nat) :
  ∃ (r : result (tensor F * tensor F)) (st1 : state F),
    DenoiseDiffusion_loss G x0 cond st
      = (try pe := r in reduce_loss (loss_type (self st)) pe.1 pe.2, st1) ∧
    ∀ pred eps, r = Ok (pred, eps) →
      eps = {| shape := shape x0; elem := drawn_eps G (rng_pos st) |} ∧
      ∃ xt t evs,
        trace st1 = Forward xt t cond :: evs ++ trace st ∧
        forward (eps_model (self st)) xt t cond (heap st1) = Ok pred.
Proof.
  unfold DenoiseDiffusion_loss. exec_body false.
  all: first
    [ eexists (Raise _), _; split; [reflexivity|]; intros ? ? [=]
    | eexists (Ok (_, _)), _; split; [apply (reduce_tail _ (Ok _))|];
      intros ? ? [= <- <-]; split; [reflexivity|];
      eexists _, _; split_trace; eassumption ].
Qed.

(** The base [loss] on a well-shaped batch: the predictor is called and
    its answer is reduced. *)
Lemma loss_run_any (st : state F) (x0 : tensor F) (cond : option nat)
    (n : nat) (ds : list nat) :
  shape x0 = n :: ds →
  schedule_ready (self st) →
  (use_cond (eps_model (self st)) = true →
   is_Some (uncond_mask_dist (self st)) ∧
   ∃ c v d, cond = Some c ∧ heap st !! c = Some v ∧ shape v = [n; d]) →
  ∃ xt t hp st1,
    DenoiseDiffusion_loss G x0 cond st =
      (try pred := forward (eps_model (self st)) xt t cond hp in
       reduce_loss (loss_type (self st)) pred
         {| shape := shape x0; elem := drawn_eps G (rng_pos st) |}, st1) ∧
    shape xt = shape x0.
Proof.
  intros Hs Hr Hc. destruct (use_cond (eps_model (self st))) eqn:Hu.
  - destruct (Hc eq_refl) as (Hd & c & v & d & -> & Hl & Hv).
    destruct (loss_run_cond G st x0 v c n d ds Hs Hr Hu Hd Hl Hv)
      as (xt & cv & Hrun & Hsx & _).
    cbn zeta in Hrun. rewrite Hrun. by eexists xt, _, _, _.
  - destruct (loss_run_uncond G st x0 cond n ds Hs Hr Hu)
      as (xt & Hrun & Hsx & _).
    cbn zeta in Hrun. rewrite Hrun. by eexists xt, _, _, _.
Qed.

Lemma broadcast2_same_shape (op : F → F → F) (a b : tensor F) :
  shape a = shape b →
  ∃ d, broadcast2 op a b = Ok d ∧ shape d = shape b ∧
       ∀ idx, in_range (shape b) idx →
         elem d idx = op (elem a idx) (elem b idx).
Proof.
  intros Hab. unfold broadcast2. rewrite Hab, broadcast_shapes_refl.
  eexists. split; [reflexivity|]. split; [done|]. cbn [elem].
  intros idx Hr. by rewrite bcast_index_in_range.
Qed.

(** C8. The loss kind is looked at only when a loss is computed: the
    constructor succeeds or fails alike for every [loss_type] and merely
    stores it.  Every [loss] call returns an earlier error or the reduction
    of the predictor's answer against the drawn noise: the mean of the
    absolute differences for "l1", the mean of the squared differences for
    "l2", and the [ValueError] for any other string, so that with such a
    string no call returns a loss.  With a predictor that answers in the
    shape of its input, a call on a well-shaped batch does reach the
    reduction. *)
Theorem loss_kind_spec (m : Predictor F) (up : option F) (T0 : nat)
    (dev lt lt' bs : string) (kw : list (string * F))
    (st : state F) (x0 : tensor F) (cond : option nat) :
  let kind := loss_type (self st) in
  (is_ok (DenoiseDiffusion_init utils m up T0 dev lt bs kw)
     = is_ok (DenoiseDiffusion_init utils m up T0 dev lt' bs kw) ∧
   ∀ self0, DenoiseDiffusion_init utils m up T0 dev lt bs kw = Ok self0 →
            loss_type self0 = lt) ∧
  (∃ (r : result (tensor F * tensor F)) (st1 : state F),
     DenoiseDiffusion_loss G x0 cond st
       = (match r with
          | Ok (pred_eps, eps) =>
              if bool_decide (kind = "l1") then l1_loss pred_eps eps
              else if bool_decide (kind = "l2") then mse_loss pred_eps eps
              else Raise (ValueError ("Unknown loss_type: " +:+ kind))
          | Raise e => Raise e
          end, st1) ∧
     ∀ pred_eps eps, r = Ok (pred_eps, eps) →
       eps = {| shape := shape x0; elem := drawn_eps G (rng_pos st) |} ∧
       ∃ xt t evs,
         trace st1 = Forward xt t cond :: evs ++ trace st ∧
         forward (eps_model (self st)) xt t cond (heap st1) = Ok pred_eps) ∧
  (kind ≠ "l1" → kind ≠ "l2" →
   is_ok (DenoiseDiffusion_loss G x0 cond st).1 = false) ∧
  (∀ n ds,
     shape x0 = n :: ds →
     schedule_ready (self st) →
     (use_cond (eps_model (self st)) = true →
      is_Some (uncond_mask_dist (self st)) ∧
      ∃ c v d, cond = Some c ∧ heap st !! c = Some v ∧ shape v = [n; d]) →
     (∀ xt t c h, ∃ pred_eps,
        forward (eps_model (self st)) xt t c h = Ok pred_eps ∧
        shape pred_eps = shape xt) →
     ∃ pred_eps eps d,
       broadcast2 fsub pred_eps eps = Ok d ∧
       shape d = shape x0 ∧
       (∀ idx, in_range (shape x0) idx →
          elem d idx = fsub (elem pred_eps idx) (elem eps idx)) ∧
       (DenoiseDiffusion_loss G x0 cond st).1
         = if bool_decide (kind = "l1") then Ok (mean_all (tmap fabs d))
           else if bool_decide (kind = "l2")
                then Ok (mean_all (tmap (λ v, fmul v v) d))
                else Raise (ValueError ("Unknown loss_type: " +:+ kind))).
Proof.
  intros kind. split; [split|split; [|split]].
  - unfold DenoiseDiffusion_init.
    destruct (negb _); [done|].
    destruct (if use_cond m then _ else _); [|done]. cbn [rbind].
    by repeat case_bool_decide.
  - intros self0 Hi. by destruct (init_inv utils _ _ _ _ _ _ _ _ Hi)
      as (_ & _ & ? & _).
  - destruct (loss_reduce_form st x0 cond) as (r & st1 & Hrun & Hr).
    exists r, st1. split; [|exact Hr].
    rewrite Hrun. by destruct r as [[pred_eps eps]|e].
  - intros H1 H2.
    destruct (loss_reduce_form st x0 cond) as (r & st1 & -> & _).
    destruct r as [[pred_eps eps]|e]; [|done].
    cbn [rbind fst snd]. unfold reduce_loss.
    by rewrite !bool_decide_eq_false_2.
  - intros n ds Hs Hr Hc Hf.
    destruct (loss_run_any st x0 cond n ds Hs Hr Hc)
      as (xt & t & hp & st1 & -> & Hsx).
    destruct (Hf xt t cond hp) as (pred_eps & -> & Hsp).
    destruct (broadcast2_same_shape fsub pred_eps
                {| shape := shape x0; elem := drawn_eps G (rng_pos st) |})
      as (d & Hd & Hsd & Hed); [by rewrite Hsp, Hsx|].
    exists pred_eps. eexists _, d. split; [exact Hd|].
    split; [exact Hsd|]. split; [exact Hed|].
    cbn [rbind fst]. unfold reduce_loss, l1_loss, mse_loss. by rewrite Hd.
Qed.

End reduction.

(** [loss_kind_spec] on the demo batch: the predictor answers the noised
    batch [[11; 14; 17; 83/5; 118/5; 153/5]], the noise is 10 everywhere and
    "l1" returns [44/5], the mean of [[1; 4; 7; 33/5; 68/5; 103/5]];
    "huber" makes the call raise. *)
Lemma loss_kind_spec_witness :
  ∃ self1 self3 : DenoiseDiffusion Q,
    Demo.process false "l1" "linear" = Ok self1 ∧
    Demo.process false "huber" "linear" = Ok self3 ∧
    (DenoiseDiffusion_loss Demo.gen Demo.x0 None (Demo.start self1)).1
      = Ok (44 # 5)%Q ∧
    is_ok (DenoiseDiffusion_loss Demo.gen Demo.x0 None (Demo.start self3)).1
      = false.
Proof.
  eexists _, _. split; [reflexivity|]. split; [reflexivity|]. split.
  - match goal with
    | |- context [Demo.start ?s] =>
        destruct (proj2 (proj2 (proj2
                    (loss_kind_spec (H:=Demo.Q_scalar) Demo.utils Demo.gen
                       (Demo.echo false) None 4 "cpu" "l1" "l2" "linear" []
                       (Demo.start s) Demo.x0 None)))
                    2 [3] eq_refl ltac:(split; vm_compute; lia)
                    ltac:(intros [=])
                    ltac:(intros xt t c h; exists xt; split; reflexivity))
          as (pred_eps & eps & d & _ & _ & _ & _)
    end.
    vm_compute. reflexivity.
  - match goal with
    | |- context [Demo.start ?s] =>
        apply (proj1 (proj2 (proj2
                 (loss_kind_spec (H:=Demo.Q_scalar) Demo.utils Demo.gen
                    (Demo.echo false) None 4 "cpu" "huber" "l2" "linear" []
                    (Demo.start s) Demo.x0 None))))
    end; intros [=].
Defined.

Section unconditional.
Context `{Scalar F} (G : Generator F).

(** Two base [loss] calls that differ in [cond] only, with a predictor that
    takes no conditioning, share everything up to the predictor call. *)
Lemma loss_uncond_form (st : state F) (x0 : tensor F) (c1 c2 : option nat) :
  use_cond (eps_model (self st)) = false →
  ∃ pre,
    DenoiseDiffusion_loss G x0 c1 st = pass_cond (self st) (heap st) pre c1 ∧
    DenoiseDiffusion_loss G x0 c2 st = pass_cond (self st) (heap st) pre c2 ∧
    heap (prefix_state pre) = heap st ∧
    ∃ evs,
      trace (prefix_state pre) = evs ++ trace st ∧
      Forall (λ e, is_bernoulli e = false ∧ is_forward e = false) evs.
Proof.
  intros Hu. unfold DenoiseDiffusion_loss. exec_unfold. rewrite Hu.
  exec_body true.
  all: first
    [ eexists (inl (_, _));
      split; [reflexivity|]; split; [reflexivity|]; split; [reflexivity|];
      cbn [prefix_state]; split_trace; repeat constructor
    | lazymatch goal with
      | |- context [(Raise _, {| self := ?S; heap := ?Hh; rng_pos := ?R;
                                 trace := Forward ?xt ?t _ :: ?TR |})] =>
          exists (inr (xt, t,
                       {| shape := shape x0;
                          elem := gen_normal G (Datatypes.S (rng_pos st)) |},
                       {| self := S; heap := Hh; rng_pos := R; trace := TR |}))
      end;
      split; [apply reduce_tail|]; split; [apply reduce_tail|];
      split; [reflexivity|];
      cbn [prefix_state trace]; split_trace; repeat constructor ].
Qed.

(** C5, as the code has it.  With a predictor that takes no conditioning
    the base [loss] hands [cond] to the predictor and does nothing else
    with it: two calls that differ in [cond] only share every step up to
    the predictor call, leave the store untouched, draw no dropout mask and
    return the same result whenever the predictor answers alike; [None] is
    as good as any other value.  The trajectory [loss] draws no dropout
    mask either, on any path, but a call that reaches the concatenation
    (a batch with a sequence axis, a schedule that serves it) reads
    [cond]: with [None] it raises [TypeError], and with a [cond] of shape
    [[n; d]] the predictor is handed, in the store it is called with, a
    new tensor of width [d + 1] that holds the components of [cond]
    followed by the flag 1, while the caller's tensor stays as it was. *)
Theorem loss_uncond_ignores_cond (st : state F) (x0 : tensor F) :
  use_cond (eps_model (self st)) = false →
  (∀ c1 c2, ∃ pre,
     DenoiseDiffusion_loss G x0 c1 st = pass_cond (self st) (heap st) pre c1 ∧
     DenoiseDiffusion_loss G x0 c2 st = pass_cond (self st) (heap st) pre c2 ∧
     heap (prefix_state pre) = heap st ∧
     ∃ evs,
       trace (prefix_state pre) = evs ++ trace st ∧
       Forall (λ e, is_bernoulli e = false ∧ is_forward e = false) evs) ∧
  (∀ c1 c2,
     (∀ xt t, forward (eps_model (self st)) xt t c1 (heap st)
              = forward (eps_model (self st)) xt t c2 (heap st)) →
     (DenoiseDiffusion_loss G x0 c1 st).1 = (DenoiseDiffusion_loss G x0 c2 st).1) ∧
  (∀ cond,
     heap (DenoiseDiffusion_loss G x0 cond st).2 = heap st ∧
     ∃ evs,
       trace (DenoiseDiffusion_loss G x0 cond st).2 = evs ++ trace st ∧
       Forall (λ e, is_bernoulli e = false) evs) ∧
  (∀ cond ph, ∃ evs,
     trace (DMDenoiseDiffusion_loss G x0 cond ph st).2 = evs ++ trace st ∧
     Forall (λ e, is_bernoulli e = false) evs) ∧
  (∀ n m ds ph,
     shape x0 = n :: m :: ds →
     schedule_ready (self st) →
     (DMDenoiseDiffusion_loss G x0 None ph st).1 = Raise TypeError ∧
     ∀ c v d,
       heap st !! c = Some v →
       shape v = [n; d] →
       ∃ xt t l cv evs st',
         DMDenoiseDiffusion_loss G x0 (Some c) ph st
           = (try pred_eps := forward (eps_model (self st)) xt t (Some l)
                                (heap st') in
              reduce_loss (loss_type (self st)) pred_eps
                {| shape := shape x0; elem := drawn_eps G (rng_pos st) |},
              st') ∧
         trace st' = Forward xt t (Some l) :: evs ++ trace st ∧
         (l ∉ dom (heap st)) ∧
         heap st' = <[l := cv]> (heap st) ∧
         (heap st' !! c = Some v) ∧
         shape cv = [n; d + 1] ∧
         ∀ b, b < n →
           elem cv [b; d] = fone ∧
           ∀ j, j < d → elem cv [b; j] = elem v [b; j]).
Proof.
  intros Hu. split; [|split; [|split; [|split]]].
  - intros c1 c2. by apply loss_uncond_form.
  - intros c1 c2 Hf.
    destruct (loss_uncond_form st x0 c1 c2 Hu) as (pre & -> & -> & _).
    destruct pre as [[e st1]|[[[xt t] eps] st1]]; [done|].
    cbn [pass_cond fst]. by rewrite Hf.
  - intros cond.
    destruct (loss_uncond_form st x0 cond cond Hu)
      as (pre & -> & _ & Hh & evs & Ht & Hev).
    destruct pre as [[e st1]|[[[xt t] eps] st1]];
      cbn [pass_cond prefix_state snd log heap trace] in *.
    + split; [exact Hh|]. exists evs. split; [exact Ht|].
      eapply Forall_impl; [exact Hev|]. by intros ? [? _].
    + split; [exact Hh|]. exists (Forward xt t cond :: evs).
      split; [by rewrite Ht|]. constructor; [done|].
      eapply Forall_impl; [exact Hev|]. by intros ? [? _].
  - intros cond ph. unfold DMDenoiseDiffusion_loss. exec_unfold. rewrite Hu.
    exec; split_trace; repeat constructor.
  - intros n m ds ph Hs Hr.
    split; [by apply (DM_loss_none_TypeError G st x0 ph n m ds)|].
    intros c v d Hc Hv.
    destruct (DM_loss_run G st x0 v c n m d ds ph Hs Hr Hc Hv)
      as (xt & cv & Hrun & _ & _ & _ & Hscv & Hcv); [by rewrite Hu|].
    cbn zeta in Hrun. rewrite Hrun, Hu.
    lazymatch goal with
    | |- context [@pair (result F) (state F) _ ?S] =>
        eexists xt, _, _, cv, _, S
    end.
    split; [reflexivity|]. cbn [trace heap].
    split; [reflexivity|].
    split; [apply is_fresh|].
    split; [reflexivity|].
    split; [by rewrite lookup_insert_ne by (by eapply fresh_ne)|].
    split; [exact Hscv|].
    intros b Hb. split.
    + rewrite Hcv, Hu by lia. unfold augmented_at. by rewrite Nat.ltb_irrefl.
    + intros j Hj. rewrite Hcv, Hu by lia.
      unfold augmented_at. by apply Nat.ltb_lt in Hj as ->.
Qed.

End unconditional.

(** C5 as the spec states it fails for the trajectory variant: with a
    predictor that takes no conditioning and ignores [cond], the call with
    [cond = None] raises where the call with a tensor returns a loss. *)
Lemma loss_ignores_cond_counterexample :
  ∃ self0 : DenoiseDiffusion Q,
    Demo.process false "l2" "linear" = Ok self0 ∧
    use_cond (eps_model self0) = false ∧
    (∀ xt t c1 c2 h,
       forward (eps_model self0) xt t c1 h = forward (eps_model self0) xt t c2 h) ∧
    (DMDenoiseDiffusion_loss Demo.gen Demo.x0 None (Some 1%Z)
       (Demo.start self0)).1 = Raise TypeError ∧
    (DMDenoiseDiffusion_loss Demo.gen Demo.x0 (Some 0) (Some 1%Z)
       (Demo.start self0)).1 = Ok (11554 # 75)%Q.
Proof.
  eexists. split; [reflexivity|]. split; [reflexivity|].
  split; [reflexivity|]. split; vm_compute; reflexivity.
Qed.

(** [loss_uncond_ignores_cond] on the demo batch: [None] and a tensor give
    the same loss in the base variant. *)
Lemma loss_uncond_ignores_cond_witness :
  ∃ self0 : DenoiseDiffusion Q,
    Demo.process false "l2" "linear" = Ok self0 ∧
    (DenoiseDiffusion_loss Demo.gen Demo.x0 None (Demo.start self0)).1
      = (DenoiseDiffusion_loss Demo.gen Demo.x0 (Some 0) (Demo.start self0)).1.
Proof.
  eexists. split; [reflexivity|].
  match goal with
  | |- context [Demo.start ?s] =>
      apply (proj1 (proj2
               (loss_uncond_ignores_cond Demo.gen (Demo.start s) Demo.x0
                  eq_refl)))
  end.
  reflexivity.
Defined.

(** * Further properties of the code *)

(** ** Construction: which calls succeed *)

Section init_outcome.
Context `{Scalar F} (utils : diffusion_utils F).

(** X1. [__init__] returns an object exactly when its three checks pass, in
    the order the code makes them: the presence of [uncond_prob] agrees
    with [use_cond] (line 35), [1 - uncond_prob] is accepted by [Bernoulli]
    when the predictor takes conditioning (line 37), and [beta_schedule] is
    "linear" or "cosine" (lines 39-46).  The unknown-schedule error is
    reported only when the first two checks have passed, and it carries the
    offending name. *)
Theorem init_outcome (m : Predictor F) (up : option F) (T0 : nat)
    (dev lt bs : string) (kw : list (string * F)) :
  let agree := (use_cond m = true ↔ is_Some up) in
  let prob_ok := ∀ p, up = Some p → use_cond m = true →
                      Bernoulli (fsub fone p) = Ok (fsub fone p) in
  let known := bs = "linear" ∨ bs = "cosine" in
  (is_ok (DenoiseDiffusion_init utils m up T0 dev lt bs kw) = true ↔
   agree ∧ prob_ok ∧ known) ∧
  (DenoiseDiffusion_init utils m up T0 dev lt bs kw
     = Raise (ValueError ("Unknown beta_schedule: " +:+ bs)) ↔
   agree ∧ prob_ok ∧ ¬ known) ∧
  (¬ agree → DenoiseDiffusion_init utils m up T0 dev lt bs kw = Raise AssertionError) ∧
  (agree → ¬ prob_ok →
   ∃ msg, DenoiseDiffusion_init utils m up T0 dev lt bs kw = Raise (ValueError msg) ∧
          msg ≠ "Unknown beta_schedule: " +:+ bs).
Proof.
  intros agree prob_ok known.
  set (r := DenoiseDiffusion_init utils m up T0 dev lt bs kw).
  set (bmsg := "Expected parameter probs to satisfy the constraint Interval").
  assert ((¬ agree ∧ r = Raise AssertionError) ∨
          (agree ∧ ¬ prob_ok ∧ r = Raise (ValueError bmsg)) ∨
          (agree ∧ prob_ok ∧ ¬ known ∧
           r = Raise (ValueError ("Unknown beta_schedule: " +:+ bs))) ∨
          (agree ∧ prob_ok ∧ known ∧ is_ok r = true)) as Hcases.
  { subst r agree prob_ok known. unfold DenoiseDiffusion_init.
    destruct up as [p|], (use_cond m) eqn:Hu;
      cbn [negb Bool.eqb bool_decide rbind];
      rewrite ?bool_decide_eq_true_2 by done;
      rewrite ?bool_decide_eq_false_2 by (intros E; by apply E);
      cbn [negb Bool.eqb rbind].
    - assert (true = true ↔ is_Some (Some p)) as Ha by (split; eauto).
      destruct (fleb fzero (fsub fone p) && fleb (fsub fone p) fone) eqn:Hp.
      + assert (Bernoulli (fsub fone p) = Ok (fsub fone p)) as Hb.
        { unfold Bernoulli. by rewrite Hp. }
        assert (∀ q, Some p = Some q → true = true →
                  Bernoulli (fsub fone q) = Ok (fsub fone q)) as Hq.
        { by intros q [= <-] _. }
        rewrite Hb. cbn [rbind].
        do 2 right. repeat case_bool_decide; cbn [rbind is_ok].
        * right. split_and!; auto.
        * right. split_and!; auto.
        * left. split_and!; auto. intros [?|?]; done.
      + assert (Bernoulli (fsub fone p) = Raise (ValueError bmsg)) as Hb.
        { unfold Bernoulli. by rewrite Hp. }
        rewrite Hb. cbn [rbind].
        right. left. split_and!; auto.
        intros Hq. specialize (Hq p eq_refl eq_refl). by rewrite Hb in Hq.
    - left. split; [|done]. intros [_ Ha]. by specialize (Ha ltac:(eauto)).
    - left. split; [|done]. intros [Ha _]. by destruct (Ha eq_refl).
    - assert (false = true ↔ is_Some (@None F)) as Ha.
      { split; [done|]. intros [? ?]; done. }
      assert (∀ q, @None F = Some q → false = true →
                Bernoulli (fsub fone q) = Ok (fsub fone q)) as Hq by done.
      do 2 right. repeat case_bool_decide; cbn [rbind is_ok].
      * right. split_and!; auto.
      * right. split_and!; auto.
      * left. split_and!; auto. intros [?|?]; done. }
  assert (bmsg ≠ "Unknown beta_schedule: " +:+ bs) as Hmsg by done.
  split_and!.
  - split.
    + intros Hok.
      destruct Hcases as [[_ E]|[(_ & _ & E)|[(_ & _ & _ & E)|(? & ? & ? & _)]]];
        [by rewrite E in Hok..|done].
    + intros (Ha & Hq & Hk).
      destruct Hcases as [[? _]|[(_ & ? & _)|[(_ & _ & ? & _)|(_ & _ & _ & E)]]];
        done.
  - split.
    + intros Hr.
      destruct Hcases as [[_ E]|[(_ & _ & E)|[(? & ? & ? & _)|(_ & _ & _ & E)]]];
        [rewrite E in Hr; try done..|done|by rewrite Hr in E].
    + intros (Ha & Hq & Hk).
      destruct Hcases as [[? _]|[(_ & ? & _)|[(_ & _ & _ & E)|(_ & _ & ? & _)]]];
        done.
  - intros Hn.
    destruct Hcases as [[_ E]|[(? & _)|[(? & _)|(? & _)]]]; done.
  - intros Ha Hn.
    destruct Hcases as [[? _]|[(_ & _ & E)|[(_ & ? & _)|(_ & ? & _)]]];
      [done| |done|done].
    exists bmsg. by split.
Qed.

End init_outcome.

Section init_shapes.
Context `{Scalar F} (utils : diffusion_utils F).

Lemma length_removelast' (l : list F) : length (removelast l) = length l - 1.
Proof.
  induction l as [|x l IH]; [done|].
  destruct l as [|y l]; [done|].
  change (removelast (x :: y :: l)) with (x :: removelast (y :: l)).
  cbn [length] in *. lia.
Qed.

(** X2. A constructed object holds as many [alphas] and [alphas_bar] as the
    generator returned [betas].  [alphas_bar_prev] has that length too,
    except on an empty schedule: it is then the one-element [[1]], because
    the leading 1 is prepended to the empty [alphas_bar[:-1]] (line 50).
    On a non-empty schedule the entries of [alphas_bar_prev] after the
    leading 1 are [alphas_bar] without its last entry. *)
Theorem init_lengths (m : Predictor F) (up : option F) (T0 : nat)
    (dev lt bs : string) (kw : list (string * F)) (self0 : DenoiseDiffusion F) :
  DenoiseDiffusion_init utils m up T0 dev lt bs kw = Ok self0 →
  length (alphas self0) = length (betas self0) ∧
  length (alphas_bar self0) = length (betas self0) ∧
  length (alphas_bar_prev self0) = length (betas self0) `max` 1 ∧
  (betas self0 = [] → alphas_bar self0 = [] ∧ alphas_bar_prev self0 = [fone]) ∧
  (∀ last_ab, alphas_bar self0 = tail (alphas_bar_prev self0) ++ [last_ab] ↔
              last (alphas_bar self0) = Some last_ab).
Proof.
  intros Hi.
  destruct (init_inv utils _ _ _ _ _ _ _ _ Hi)
    as (_ & _ & _ & _ & _ & _ & _ & _ & Ha & Hab & Hp).
  assert (length (alphas_bar self0) = length (betas self0)) as Hlen.
  { by rewrite Hab, cumprod_length, Ha, length_fmap. }
  split; [by rewrite Ha, length_fmap|]. split; [exact Hlen|].
  split; [rewrite Hp; cbn [length]; rewrite length_removelast'; lia|].
  split.
  { intros Hb. rewrite Hp, Hab, Ha, Hb. done. }
  intros x. rewrite Hp. cbn [tail].
  destruct (alphas_bar self0) as [|a l] using rev_ind; [done|].
  rewrite removelast_last, last_snoc. split.
  - intros E. apply app_inj_tail in E as [_ ->]. done.
  - by intros [= ->].
Qed.

End init_shapes.

(** [init_lengths] on the demo process built on an empty schedule
    ([T = 0]). *)
Lemma init_lengths_witness :
  ∃ self0 : DenoiseDiffusion Q,
    DenoiseDiffusion_init Demo.utils (Demo.echo false) None 0 "cpu" "l2"
      "cosine" [] = Ok self0 ∧
    alphas_bar self0 = [] ∧ alphas_bar_prev self0 = [1%Q].
Proof.
  eexists. split; [reflexivity|].
  apply (proj1 (proj2 (proj2 (proj2
    (init_lengths (H:=Demo.Q_scalar) Demo.utils (Demo.echo false) None 0
       "cpu" "l2" "cosine" [] _ eq_refl))))).
  reflexivity.
Defined.

(** ** The lazily fixed data shape *)

Section lazy_shape.
Context `{Scalar F} (G : Generator F).

Lemma loss_x_shape (st : state F) (x0 : tensor F) (cond : option nat) :
  self (DenoiseDiffusion_loss G x0 cond st).2 = fix_x_shape (self st) x0.
Proof.
  unfold DenoiseDiffusion_loss, fix_x_shape. exec; reflexivity.
Qed.

Lemma DM_loss_x_shape (st : state F) (x0 : tensor F) (cond : option nat)
    (ph : option Z) :
  self (DMDenoiseDiffusion_loss G x0 cond ph st).2 = fix_x_shape (self st) x0.
Proof.
  unfold DMDenoiseDiffusion_loss, fix_x_shape. exec; reflexivity.
Qed.

(** X3. [x_shape] is fixed by the first [loss] call of either class, to the
    shape of its batch without the batch dimension, and this happens on
    every path: also when the call goes on to raise.  No later call
    changes it, whatever the shape of its batch: nothing compares a later
    batch with the stored shape. *)
Theorem x_shape_fixed_once (st : state F) (x0 x1 : tensor F)
    (c0 c1 : option nat) (ph0 ph1 : option Z) :
  let first := (DenoiseDiffusion_loss G x0 c0 st).2 in
  let first' := (DMDenoiseDiffusion_loss G x0 c0 ph0 st).2 in
  x_shape (self first)
    = Some (default (tail (shape x0)) (x_shape (self st))) ∧
  x_shape (self first') = x_shape (self first) ∧
  self (DenoiseDiffusion_loss G x1 c1 first).2 = self first ∧
  self (DMDenoiseDiffusion_loss G x1 c1 ph1 first).2 = self first ∧
  self (DenoiseDiffusion_loss G x1 c1 first').2 = self first' ∧
  self (DMDenoiseDiffusion_loss G x1 c1 ph1 first').2 = self first'.
Proof.
  assert (∀ s : DenoiseDiffusion F,
            x_shape (fix_x_shape s x0)
              = Some (default (tail (shape x0)) (x_shape s))) as Hfix.
  { intros s. unfold fix_x_shape. by destruct (x_shape s) eqn:E. }
  assert (∀ s : DenoiseDiffusion F,
            fix_x_shape (fix_x_shape s x0) x1 = fix_x_shape s x0) as Hidem.
  { intros s. unfold fix_x_shape at 1. by rewrite Hfix. }
  cbn zeta.
  repeat rewrite ?loss_x_shape, ?DM_loss_x_shape, ?Hidem, ?Hfix.
  by split_and!.
Qed.

End lazy_shape.

(** ** The order of the draws and of the predictor call *)

(** The first alternative of a disjunction that the given tactic proves. *)
Ltac pick_case tac :=
  first [ solve [tac] | left; solve [tac] | right; pick_case tac ].

Ltac trace_case :=
  repeat match goal with |- ∃ _, _ => eexists end;
  split_and!; first [reflexivity | eassumption].

Section event_order.
Context `{Scalar F} (G : Generator F).

(** X4. On every path a base [loss] call draws in the fixed order
    timesteps, noise, dropout mask, consumes one position of the random
    source per draw and at most three, draws the mask only for a
    conditioning predictor, calls the predictor at most once and does
    nothing observable after that call; a call that stops before the
    predictor call returns no loss. *)
Theorem loss_event_order (st : state F) (x0 : tensor F) (cond : option nat) :
  let r := DenoiseDiffusion_loss G x0 cond st in
  let uc := use_cond (eps_model (self st)) in
  let n := hd 0 (shape x0) in
  let ri := Randint (T (self st)) n in
  let rn := RandnLike (shape x0) in
  let be := BernoulliSample n in
  (is_ok r.1 = false ∧ trace r.2 = trace st ∧ rng_pos r.2 = rng_pos st) ∨
  (is_ok r.1 = false ∧ trace r.2 = ri :: trace st ∧
   rng_pos r.2 = 1 + rng_pos st) ∨
  (is_ok r.1 = false ∧ trace r.2 = rn :: ri :: trace st ∧
   rng_pos r.2 = 2 + rng_pos st) ∨
  (is_ok r.1 = false ∧ uc = true ∧ trace r.2 = be :: rn :: ri :: trace st ∧
   rng_pos r.2 = 3 + rng_pos st) ∨
  (∃ xt, uc = true ∧
     trace r.2 = Forward xt (drawn_t G (self st) (rng_pos st) n) cond
                 :: be :: rn :: ri :: trace st ∧
     rng_pos r.2 = 3 + rng_pos st) ∨
  (∃ xt, uc = false ∧
     trace r.2 = Forward xt (drawn_t G (self st) (rng_pos st) n) cond
                 :: rn :: ri :: trace st ∧
     rng_pos r.2 = 2 + rng_pos st).
Proof.
  cbn zeta. unfold DenoiseDiffusion_loss, shape0, drawn_t. exec;
    cbn [hd is_ok fst snd]; pick_case trace_case.
Qed.

(** X5. The trajectory [loss] keeps the same discipline: timesteps, noise,
    then the mask for a conditioning predictor, then at most one predictor
    call, always on the tensor the call has just concatenated; the slice
    assignment and the concatenation draw nothing. *)
Theorem DM_loss_event_order (st : state F) (x0 : tensor F)
    (cond : option nat) (ph : option Z) :
  let r := DMDenoiseDiffusion_loss G x0 cond ph st in
  let uc := use_cond (eps_model (self st)) in
  let n := hd 0 (shape x0) in
  let ri := Randint (T (self st)) n in
  let rn := RandnLike (shape x0) in
  let be := BernoulliSample n in
  let fresh_cond := Some (fresh (dom (heap st))) in
  (is_ok r.1 = false ∧ trace r.2 = trace st ∧ rng_pos r.2 = rng_pos st) ∨
  (is_ok r.1 = false ∧ trace r.2 = ri :: trace st ∧
   rng_pos r.2 = 1 + rng_pos st) ∨
  (is_ok r.1 = false ∧ trace r.2 = rn :: ri :: trace st ∧
   rng_pos r.2 = 2 + rng_pos st) ∨
  (is_ok r.1 = false ∧ uc = true ∧ trace r.2 = be :: rn :: ri :: trace st ∧
   rng_pos r.2 = 3 + rng_pos st) ∨
  (∃ xt, uc = true ∧
     trace r.2 = Forward xt (drawn_t G (self st) (rng_pos st) n) fresh_cond
                 :: be :: rn :: ri :: trace st ∧
     rng_pos r.2 = 3 + rng_pos st) ∨
  (∃ xt, uc = false ∧
     trace r.2 = Forward xt (drawn_t G (self st) (rng_pos st) n) fresh_cond
                 :: rn :: ri :: trace st ∧
     rng_pos r.2 = 2 + rng_pos st).
Proof.
  cbn zeta. unfold DMDenoiseDiffusion_loss, shape0, drawn_t. exec;
    cbn [hd is_ok fst snd]; pick_case trace_case.
Qed.

End event_order.

(** ** Batches the code cannot serve *)

Section bad_batches.
Context `{Scalar F} (G : Generator F).

(** X6. A batch without a batch dimension, or an object with [T = 0],
    makes either [loss] raise before anything is drawn: [x0.shape[0]]
    raises [IndexError] on a rank-0 tensor and [torch.randint(0, ...)]
    raises.  The store, the trace and the random source are as before the
    call; only [x_shape] has been fixed. *)
Theorem loss_rejects_before_drawing (st : state F) (x0 : tensor F)
    (cond : option nat) (ph : option Z) :
  shape x0 = [] ∨ T (self st) = 0 →
  let e := if bool_decide (shape x0 = []) then IndexError else RuntimeError in
  let st' := {| self := fix_x_shape (self st) x0; heap := heap st;
                rng_pos := rng_pos st; trace := trace st |} in
  DenoiseDiffusion_loss G x0 cond st = (Raise e, st') ∧
  DMDenoiseDiffusion_loss G x0 cond ph st = (Raise e, st').
Proof.
  intros Hbad. cbn zeta.
  unfold DenoiseDiffusion_loss, DMDenoiseDiffusion_loss, shape0, fix_x_shape.
  exec_unfold. destruct st as [s h pos tr].
  cbn [self heap rng_pos trace] in *.
  destruct (shape x0) as [|n ds] eqn:Hs.
  - rewrite ?bool_decide_eq_true_2 by done.
    destruct (x_shape s); split; reflexivity.
  - destruct Hbad as [|HT]; [done|]. rewrite HT. cbn [Nat.eqb].
    destruct (x_shape s); split; reflexivity.
Qed.

(** X7. The trajectory [loss] needs a sequence axis: on a rank-1 batch the
    slice assignment [xt[:, :preserved_horizon]] raises [IndexError], after
    the timesteps and the noise have been drawn and before [cond] is
    touched or the predictor called. *)
Theorem DM_loss_needs_sequence_axis (st : state F) (x0 : tensor F)
    (cond : option nat) (ph : option Z) (n : nat) :
  shape x0 = [n] →
  schedule_ready (self st) →
  DMDenoiseDiffusion_loss G x0 cond ph st
    = (Raise IndexError,
       {| self := fix_x_shape (self st) x0; heap := heap st;
          rng_pos := 2 + rng_pos st;
          trace := RandnLike [n] :: Randint (T (self st)) n :: trace st |}).
Proof.
  intros Hs Hr.
  destruct (noisy_ok G (self st) x0 (rng_pos st) n [] Hs Hr)
    as (mean & std & nz & Hq & Hnz & _).
  destruct Hr as [HT Hlen].
  unfold DMDenoiseDiffusion_loss, drawn_t, fix_x_shape in *. exec_unfold.
  rewrite (shape0_cons _ _ _ Hs).
  assert ((T (self st) =? 0) = false) as -> by (apply Nat.eqb_neq; lia).
  assert (setitem_prefix nz x0 ph = Raise IndexError) as Hset.
  { unfold setitem_prefix. by rewrite Hs. }
  destruct (x_shape (self st));
    cbn beta iota delta [fst snd self heap rng_pos trace];
    rewrite Hq; cbn beta iota delta [fst snd self heap rng_pos trace];
    rewrite Hnz, Hset, Hs; reflexivity.
Qed.

End bad_batches.

(** [loss_rejects_before_drawing] on a rank-0 batch. *)
Lemma loss_rejects_before_drawing_witness :
  ∃ self0 : DenoiseDiffusion Q,
    Demo.process false "l2" "linear" = Ok self0 ∧
    (DenoiseDiffusion_loss Demo.gen {| shape := []; elem := λ _, 1%Q |} None
       (Demo.start self0)).1 = Raise IndexError.
Proof.
  eexists. split; [reflexivity|].
  match goal with
  | |- context [Demo.start ?s] =>
      pose proof (proj1 (loss_rejects_before_drawing Demo.gen (Demo.start s)
                           {| shape := []; elem := λ _, 1%Q |} None None
                           (or_introl eq_refl))) as Hr
  end.
  cbn zeta in Hr. rewrite Hr. reflexivity.
Defined.

(** [DM_loss_needs_sequence_axis] on a rank-1 batch of two elements. *)
Lemma DM_loss_needs_sequence_axis_witness :
  ∃ self0 : DenoiseDiffusion Q,
    Demo.process false "l2" "linear" = Ok self0 ∧
    (DMDenoiseDiffusion_loss Demo.gen {| shape := [2]; elem := λ _, 1%Q |}
       (Some 0) (Some 1%Z) (Demo.start self0)).1 = Raise IndexError.
Proof.
  eexists. split; [reflexivity|].
  match goal with
  | |- context [Demo.start ?s] =>
      rewrite (DM_loss_needs_sequence_axis Demo.gen (Demo.start s)
                 {| shape := [2]; elem := λ _, 1%Q |} (Some 0) (Some 1%Z) 2
                 eq_refl ltac:(split; vm_compute; lia))
  end.
  reflexivity.
Defined.

(** ** The empty batch *)

Section empty_batch.
Context `{Scalar F} (G : Generator F).

Lemma mean_all_empty (x : tensor F) (ds : list nat) :
  shape x = 0 :: ds → mean_all x = fdiv fzero (of_nat 0).
Proof. unfold mean_all. by intros ->. Qed.

(** X8. An empty batch is not rejected: with a predictor that answers in
    the shape of its input, the base [loss] on a batch of zero elements
    draws and calls the predictor as usual and returns the mean over no
    element, the quotient of the empty sum by the count 0 (which is NaN in
    floating point), for "l1" and for "l2" alike. *)
Theorem loss_empty_batch (st : state F) (x0 : tensor F) (cond : option nat)
    (ds : list nat) :
  shape x0 = 0 :: ds →
  schedule_ready (self st) →
  (use_cond (eps_model (self st)) = true →
   is_Some (uncond_mask_dist (self st)) ∧
   ∃ c v d, cond = Some c ∧ heap st !! c = Some v ∧ shape v = [0; d]) →
  (∀ xt t c h, ∃ pred_eps,
     forward (eps_model (self st)) xt t c h = Ok pred_eps ∧
     shape pred_eps = shape xt) →
  loss_type (self st) = "l1" ∨ loss_type (self st) = "l2" →
  (DenoiseDiffusion_loss G x0 cond st).1 = Ok (fdiv fzero (of_nat 0)).
Proof.
  intros Hs Hr Hc Hf Hk.
  destruct (loss_run_any G st x0 cond 0 ds Hs Hr Hc)
    as (xt & t & hp & st1 & -> & Hsx).
  destruct (Hf xt t cond hp) as (pred_eps & -> & Hsp).
  destruct (broadcast2_same_shape fsub pred_eps
              {| shape := shape x0; elem := drawn_eps G (rng_pos st) |})
    as (d & Hd & Hsd & _); [by rewrite Hsp, Hsx|].
  cbn [rbind fst shape] in *. unfold reduce_loss, l1_loss, mse_loss.
  rewrite Hd. cbn [rbind].
  rewrite !(mean_all_empty _ ds) by (cbn [tmap shape]; congruence).
  destruct Hk as [->| ->]; reflexivity.
Qed.

End empty_batch.

(** [loss_empty_batch] on a batch of shape [[0; 3]]: over the rationals the
    quotient by 0 is 0. *)
Lemma loss_empty_batch_witness :
  ∃ self0 : DenoiseDiffusion Q,
    Demo.process false "l2" "linear" = Ok self0 ∧
    (DenoiseDiffusion_loss Demo.gen {| shape := [0; 3]; elem := λ _, 1%Q |}
       None (Demo.start self0)).1 = Ok 0%Q.
Proof.
  eexists. split; [reflexivity|].
  match goal with
  | |- context [Demo.start ?s] =>
      rewrite (loss_empty_batch (H:=Demo.Q_scalar) Demo.gen (Demo.start s)
                 {| shape := [0; 3]; elem := λ _, 1%Q |} None [3]
                 eq_refl ltac:(split; vm_compute; lia) ltac:(intros [=])
                 ltac:(intros xt t c h; exists xt; split; reflexivity)
                 (or_intror eq_refl))
  end.
  reflexivity.
Defined.

(** ** The mask and the shape of [cond] in the base variant *)

Section base_mask.
Context `{Scalar F} (G : Generator F).

(** The base [loss] with a conditioning predictor up to the product
    [cond *= mask], whatever the shape of [cond]. *)
Lemma loss_run_masked (st : state F) (x0 v : tensor F) (c n : nat)
    (ds : list nat) :
  shape x0 = n :: ds →
  schedule_ready (self st) →
  use_cond (eps_model (self st)) = true →
  is_Some (uncond_mask_dist (self st)) →
  heap st !! c = Some v →
  ∃ xt,
    let pos := rng_pos st in
    let t := drawn_t G (self st) pos n in
    let eps := {| shape := shape x0; elem := gen_normal G (S pos) |} in
    let mask := {| shape := [n; 1];
                   elem := λ idx, if gen_bernoulli G (S (S pos)) (hd 0 idx)
                                  then fone else fzero |} in
    let drawn := [BernoulliSample n; RandnLike (shape x0);
                  Randint (T (self st)) n] in
    DenoiseDiffusion_loss G x0 (Some c) st =
      match imul v mask with
      | Ok cv =>
          (try pred := forward (eps_model (self st)) xt t (Some c)
                         (<[c := cv]> (heap st)) in
           reduce_loss (loss_type (self st)) pred eps,
           {| self := fix_x_shape (self st) x0;
              heap := <[c := cv]> (heap st);
              rng_pos := 3 + pos;
              trace := Forward xt t (Some c) :: drawn ++ trace st |})
      | Raise e =>
          (Raise e,
           {| self := fix_x_shape (self st) x0;
              heap := heap st;
              rng_pos := 3 + pos;
              trace := drawn ++ trace st |})
      end.
Proof.
  intros Hs Hr Hu [pr Hpr] Hc.
  destruct (noisy_ok G (self st) x0 (rng_pos st) n ds Hs Hr)
    as (mean & std & xt & Hq & Hnz & _).
  destruct Hr as [HT Hlen].
  unfold DenoiseDiffusion_loss, drawn_t in *. exec_unfold.
  rewrite (shape0_cons _ _ _ Hs), Hu.
  assert ((T (self st) =? 0) = false) as -> by (apply Nat.eqb_neq; lia).
  exists xt.
  destruct (x_shape (self st)) eqn:Hx;
    cbn beta iota delta [fst snd self heap rng_pos trace];
    rewrite Hq; cbn beta iota delta [fst snd self heap rng_pos trace];
    rewrite Hnz;
    cbn beta iota delta [fst snd self heap rng_pos trace with_x_shape
                         uncond_mask_dist eps_model];
    rewrite Hpr;
    cbn beta iota delta [fst snd self heap rng_pos trace];
    rewrite Hc;
    cbn beta iota delta [fst snd self heap rng_pos trace];
    (destruct (imul v _) as [cv|e];
     cbn beta iota delta [fst snd self heap rng_pos trace with_x_shape
                          uncond_mask_dist eps_model];
     [etrans; [apply reduce_tail|]|];
     unfold fix_x_shape; rewrite Hx; reflexivity).
Qed.

Lemma broadcast_shapes_rows (k n d : nat) :
  broadcast_shapes [k; d] [n; 1]
    = if k =? n then Some [k; d]
      else if k =? 1 then Some [n; d]
      else if n =? 1 then Some [k; d]
      else None.
Proof.
  unfold broadcast_shapes. cbn.
  destruct (k =? n), (k =? 1), (n =? 1), (d =? 1) eqn:E; cbn; try done.
  all: apply Nat.eqb_eq in E; by subst.
Qed.

(** X9. The base [loss] does not check that [cond] has one row per batch
    element; the product [cond *= mask] decides.  With [k] rows for a batch
    of [n], [k ≠ n] and [n ≠ 1], the call raises after the mask has been
    drawn, the caller's tensor is unchanged and the predictor is not
    called.  With a batch of one element the product broadcasts instead:
    every row of [cond] is multiplied by the single keep bit. *)
Theorem loss_cond_rows (st : state F) (x0 v : tensor F) (c n k d : nat)
    (ds : list nat) :
  shape x0 = n :: ds →
  schedule_ready (self st) →
  use_cond (eps_model (self st)) = true →
  is_Some (uncond_mask_dist (self st)) →
  heap st !! c = Some v →
  shape v = [k; d] →
  let r := DenoiseDiffusion_loss G x0 (Some c) st in
  (k ≠ n → n ≠ 1 →
   r.1 = Raise RuntimeError ∧
   heap r.2 = heap st ∧
   trace r.2 = BernoulliSample n :: RandnLike (shape x0)
               :: Randint (T (self st)) n :: trace st) ∧
  (n = 1 →
   ∃ xt t evs cv,
     trace r.2 = Forward xt t (Some c) :: evs ++ trace st ∧
     (heap r.2 !! c = Some cv) ∧
     shape cv = [k; d] ∧
     ∀ b j, b < k → j < d →
       elem cv [b; j] = fmul (elem v [b; j]) (keep_value G (rng_pos st) 0)).
Proof.
  intros Hs Hr Hu Hd Hc Hv r.
  destruct (loss_run_masked st x0 v c n ds Hs Hr Hu Hd Hc) as (xt & Hrun).
  cbn zeta in Hrun. subst r. rewrite Hrun. clear Hrun.
  unfold imul, broadcast2. cbn [shape]. rewrite Hv, broadcast_shapes_rows.
  split.
  - intros Hk Hn.
    apply Nat.eqb_neq in Hk as ->. apply Nat.eqb_neq in Hn as Hn'.
    rewrite Hn'. destruct (k =? 1) eqn:Hk1; cbn [rbind shape].
    + apply Nat.eqb_eq in Hk1 as ->.
      rewrite bool_decide_eq_false_2 by (intros [= ?]; done). done.
    + done.
  - intros ->.
    assert ((if k =? 1 then Some [k; d]
             else if k =? 1 then Some [1; d]
             else if 1 =? 1 then Some [k; d] else None) = Some [k; d]) as ->.
    { destruct (k =? 1) eqn:E; [|done]. done. }
    cbn [rbind shape]. rewrite bool_decide_eq_true_2 by done.
    cbn [fst snd trace heap].
    eexists xt, _, [_; _; _], _. split; [reflexivity|].
    split; [apply lookup_insert_eq|]. split; [reflexivity|].
    intros b j Hb Hj. cbn [elem].
    rewrite bcast_index_in_range by (repeat constructor; cbn; lia).
    reflexivity.
Qed.

End base_mask.

(** [loss_cond_rows] on the demo batch of two with a [cond] of three
    rows. *)
Lemma loss_cond_rows_witness :
  ∃ self0 : DenoiseDiffusion Q,
    Demo.process true "l2" "linear" = Ok self0 ∧
    (DenoiseDiffusion_loss Demo.gen Demo.x0 (Some 0)
       {| self := self0;
          heap := {[ 0 := {| shape := [3; 2]; elem := λ _, 1%Q |} ]};
          rng_pos := 0; trace := [] |}).1 = Raise RuntimeError.
Proof.
  eexists. split; [reflexivity|].
  match goal with
  | |- context [DenoiseDiffusion_loss _ _ _ ?s] =>
      apply (proj1 (loss_cond_rows Demo.gen s Demo.x0
                      {| shape := [3; 2]; elem := λ _, 1%Q |} 0 2 3 2 [3]
                      eq_refl ltac:(split; vm_compute; lia) eq_refl
                      ltac:(eexists; reflexivity) eq_refl eq_refl))
  end; lia.
Defined.

Section accumulate.
Context `{Scalar F} (G : Generator F).

Lemma fix_x_shape_ready (self0 : DenoiseDiffusion F) (x0 : tensor F) :
  schedule_ready self0 → schedule_ready (fix_x_shape self0 x0).
Proof. unfold fix_x_shape. by destruct (x_shape self0). Qed.

(** X10. Because the base [loss] masks the caller's tensor in place, the
    masks of successive calls on the same [cond] accumulate: after two
    calls the tensor holds the original value times the keep bit of the
    first call times the keep bit of the second, so a batch element dropped
    once stays dropped (for scalars on which zero annihilates), whatever
    the later draws. *)
Theorem loss_masks_accumulate (st : state F) (x0 x1 v : tensor F)
    (c n d : nat) (ds0 ds1 : list nat) :
  shape x0 = n :: ds0 →
  shape x1 = n :: ds1 →
  schedule_ready (self st) →
  use_cond (eps_model (self st)) = true →
  is_Some (uncond_mask_dist (self st)) →
  heap st !! c = Some v →
  shape v = [n; d] →
  let st1 := (DenoiseDiffusion_loss G x0 (Some c) st).2 in
  let st2 := (DenoiseDiffusion_loss G x1 (Some c) st1).2 in
  ∃ cv2,
    heap st2 !! c = Some cv2 ∧
    shape cv2 = [n; d] ∧
    ∀ b j, b < n → j < d →
      elem cv2 [b; j]
        = fmul (fmul (elem v [b; j]) (keep_value G (rng_pos st) b))
               (keep_value G (3 + rng_pos st) b) ∧
      ((∀ x : F, fmul x fzero = fzero) → (∀ x : F, fmul fzero x = fzero) →
       drawn_keep G (rng_pos st) b = false → elem cv2 [b; j] = fzero).
Proof.
  intros Hs0 Hs1 Hr Hu Hd Hc Hv st1 st2.
  destruct (loss_run_cond G st x0 v c n d ds0 Hs0 Hr Hu Hd Hc Hv)
    as (xt1 & cv1 & Hrun1 & _ & _ & Hscv1 & Hcv1).
  cbn zeta in Hrun1.
  assert (self st1 = fix_x_shape (self st) x0 ∧
          heap st1 = <[c := cv1]> (heap st) ∧
          rng_pos st1 = 3 + rng_pos st) as (Hself & Hheap & Hpos).
  { subst st1. by rewrite Hrun1. }
  assert (eps_model (self st1) = eps_model (self st) ∧
          uncond_mask_dist (self st1) = uncond_mask_dist (self st))
    as [Hm Hdist].
  { rewrite Hself. unfold fix_x_shape. by destruct (x_shape (self st)). }
  destruct (loss_run_cond G st1 x1 cv1 c n d ds1 Hs1) as
    (xt2 & cv2 & Hrun2 & _ & _ & Hscv2 & Hcv2).
  { rewrite Hself. by apply fix_x_shape_ready. }
  { by rewrite Hm. }
  { by rewrite Hdist. }
  { rewrite Hheap. apply lookup_insert_eq. }
  { by rewrite Hscv1. }
  cbn zeta in Hrun2. exists cv2. subst st2. rewrite Hrun2.
  cbn [snd heap]. split; [apply lookup_insert_eq|].
  split; [by rewrite Hscv2, Hscv1|].
  intros b j Hb Hj. rewrite (Hcv2 b j Hb Hj), (Hcv1 b j Hb Hj), Hpos.
  split; [reflexivity|].
  intros Hz Hz' Hk. unfold keep_value at 1. by rewrite Hk, Hz, Hz'.
Qed.

End accumulate.

(** [loss_masks_accumulate] on the demo batch: row 1, dropped by the
    generator, is zero after two calls. *)
Lemma loss_masks_accumulate_witness :
  ∃ self0 : DenoiseDiffusion Q,
    Demo.process true "l2" "linear" = Ok self0 ∧
    ∃ cv2,
      heap (DenoiseDiffusion_loss Demo.gen Demo.x0 (Some 0)
              (DenoiseDiffusion_loss Demo.gen Demo.x0 (Some 0)
                 (Demo.start self0)).2).2 !! 0 = Some cv2 ∧
      elem cv2 [1; 1] = 0%Q.
Proof.
  eexists. split; [reflexivity|].
  match goal with
  | |- context [Demo.start ?s] =>
      destruct (loss_masks_accumulate (H:=Demo.Q_scalar) Demo.gen
                  (Demo.start s) Demo.x0 Demo.x0 Demo.cond 0 2 2 [3] [3]
                  eq_refl eq_refl ltac:(split; vm_compute; lia) eq_refl
                  ltac:(eexists; reflexivity) eq_refl eq_refl)
        as (cv2 & Hl & _ & Hcv)
  end.
  exists cv2. split; [exact Hl|].
  apply (proj2 (Hcv 1 1 ltac:(lia) ltac:(lia))); [apply Q_fmul_zero | | reflexivity].
  intros [a b]. reflexivity.
Defined.

(** ** The trajectory variant: shapes of [cond], horizons, and the base
    variant *)

Section trajectory_edges.
Context `{Scalar F} (G : Generator F).

(** X11. The trajectory [loss] needs a two-dimensional [cond] with one row
    per batch element: otherwise [torch.cat] raises, after the timesteps
    and the noise have been drawn, before any mask is drawn and before the
    predictor is called; the store is as before the call. *)
Theorem DM_loss_cond_shape (st : state F) (x0 v : tensor F) (c n m : nat)
    (ds : list nat) (ph : option Z) :
  shape x0 = n :: m :: ds →
  schedule_ready (self st) →
  heap st !! c = Some v →
  (∃ k d, shape v = [k; d] ∧ k ≠ n) ∨
  (length (shape v) ≠ 2 ∧ shape v ≠ [0]) →
  DMDenoiseDiffusion_loss G x0 (Some c) ph st
    = (Raise RuntimeError,
       {| self := fix_x_shape (self st) x0; heap := heap st;
          rng_pos := 2 + rng_pos st;
          trace := RandnLike (shape x0) :: Randint (T (self st)) n
                   :: trace st |}).
Proof.
  intros Hs Hr Hc Hv.
  destruct (noisy_ok G (self st) x0 (rng_pos st) n (m :: ds) Hs Hr)
    as (mean & std & nz & Hq & Hnz & Hsn & _).
  destruct Hr as [HT Hlen].
  assert (cat_ones v n = Raise RuntimeError) as Hcat.
  { unfold cat_ones. destruct Hv as [(k & d & -> & Hk)|[Hl H0]].
    - apply Nat.eqb_neq in Hk as Hk'. destruct k; by rewrite ?Hk'.
    - destruct (shape v) as [|[|a] [|b [|b' l]]]; done. }
  assert (∃ xt, setitem_prefix nz x0 ph = Ok xt) as [xt Hset].
  { unfold setitem_prefix. rewrite Hs, bool_decide_eq_true_2 by congruence.
    by eexists. }
  unfold DMDenoiseDiffusion_loss, drawn_t, fix_x_shape in *. exec_unfold.
  rewrite (shape0_cons _ _ _ Hs).
  assert ((T (self st) =? 0) = false) as -> by (apply Nat.eqb_neq; lia).
  destruct (x_shape (self st));
    cbn beta iota delta [fst snd self heap rng_pos trace];
    rewrite Hq; cbn beta iota delta [fst snd self heap rng_pos trace];
    rewrite Hnz, Hset, Hc;
    cbn beta iota delta [fst snd self heap rng_pos trace];
    rewrite Hcat; reflexivity.
Qed.

Lemma slice_stop_negative (j m : nat) :
  0 < j → slice_stop (Some (- Z.of_nat j)%Z) m = m - j.
Proof.
  intros Hj. unfold slice_stop.
  destruct (- Z.of_nat j <? 0)%Z eqn:E; [|apply Z.ltb_ge in E]; lia.
Qed.

(** X12. A negative [preserved_horizon] is taken as Python takes a negative
    slice bound: with [-j] the last [j] positions of every sequence are
    noised and the positions before them are those of [x0], so [-1] keeps
    all but the last position and [-j] with [j] at least the sequence
    length keeps nothing. *)
Theorem DM_loss_negative_horizon (st : state F) (x0 v : tensor F)
    (c n m d j : nat) (ds : list nat) :
  shape x0 = n :: m :: ds →
  schedule_ready (self st) →
  heap st !! c = Some v →
  shape v = [n; d] →
  (use_cond (eps_model (self st)) = true → is_Some (uncond_mask_dist (self st))) →
  0 < j →
  ∃ xt t l evs,
    trace (DMDenoiseDiffusion_loss G x0 (Some c)
             (Some (- Z.of_nat j)%Z) st).2
      = Forward xt t (Some l) :: evs ++ trace st ∧
    ∀ b p rest, in_range (shape x0) (b :: p :: rest) →
      (p + j < m → elem xt (b :: p :: rest) = elem x0 (b :: p :: rest)) ∧
      (m ≤ p + j →
       elem xt (b :: p :: rest)
         = noisy_at G (self st) x0 (rng_pos st) (b :: p :: rest)).
Proof.
  intros Hs Hr Hc Hv Hd Hj.
  destruct (DM_loss_run G st x0 v c n m d ds (Some (- Z.of_nat j)%Z)
              Hs Hr Hc Hv Hd)
    as (xt & cv & Hrun & _ & Hpre & Hpost & _).
  cbn zeta in Hrun. rewrite Hrun. cbn [snd trace].
  rewrite slice_stop_negative in Hpre, Hpost by done.
  eexists xt, _, _, _. split; [reflexivity|].
  intros b p rest Hin. split; intros Hp.
  - apply Hpre. lia.
  - apply Hpost; [done | lia].
Qed.

(** X13. From the same state both variants draw the same timesteps and the
    same noise, and the [xt] the trajectory [loss] hands to the predictor
    is the [xt] of the base [loss] with the first positions of every
    sequence overwritten by [x0]; with [preserved_horizon = 0] the two
    variants hand the predictor the same batch. *)
Theorem DM_loss_refines_base (st : state F) (x0 v : tensor F)
    (c n m d : nat) (ds : list nat) (ph : option Z) :
  shape x0 = n :: m :: ds →
  schedule_ready (self st) →
  heap st !! c = Some v →
  shape v = [n; d] →
  (use_cond (eps_model (self st)) = true → is_Some (uncond_mask_dist (self st))) →
  ∃ xb xd t l evb evd,
    trace (DenoiseDiffusion_loss G x0 (Some c) st).2
      = Forward xb t (Some c) :: evb ++ trace st ∧
    trace (DMDenoiseDiffusion_loss G x0 (Some c) ph st).2
      = Forward xd t (Some l) :: evd ++ trace st ∧
    shape xd = shape xb ∧
    (∀ b p rest, in_range (shape x0) (b :: p :: rest) →
       elem xd (b :: p :: rest)
         = if p <? slice_stop ph m then elem x0 (b :: p :: rest)
           else elem xb (b :: p :: rest)) ∧
    (ph = Some 0%Z →
     ∀ idx, in_range (shape x0) idx → elem xd idx = elem xb idx).
Proof.
  intros Hs Hr Hc Hv Hd.
  destruct (DM_loss_run G st x0 v c n m d ds ph Hs Hr Hc Hv Hd)
    as (xd & cv & Hrun & Hsd & Hpre & Hpost & _).
  cbn zeta in Hrun. rewrite Hrun. cbn [snd trace]. clear Hrun.
  assert (∃ xb evb,
            trace (DenoiseDiffusion_loss G x0 (Some c) st).2
              = Forward xb (drawn_t G (self st) (rng_pos st) n) (Some c)
                :: evb ++ trace st ∧
            shape xb = shape x0 ∧
            ∀ idx, in_range (shape x0) idx →
              elem xb idx = noisy_at G (self st) x0 (rng_pos st) idx)
    as (xb & evb & Hb & Hsb & Heb).
  { destruct (use_cond (eps_model (self st))) eqn:Hu.
    - destruct (loss_run_cond G st x0 v c n d (m :: ds) Hs Hr Hu
                  (Hd eq_refl) Hc Hv) as (xb & cv' & Hrun & Hsb & Heb & _).
      cbn zeta in Hrun. rewrite Hrun. cbn [snd trace].
      by eexists xb, [_; _; _].
    - destruct (loss_run_uncond G st x0 (Some c) n (m :: ds) Hs Hr Hu)
        as (xb & Hrun & Hsb & Heb).
      cbn zeta in Hrun. rewrite Hrun. cbn [snd trace].
      by eexists xb, [_; _]. }
  rewrite Hb.
  assert (∀ b p rest, in_range (shape x0) (b :: p :: rest) →
            elem xd (b :: p :: rest)
              = if p <? slice_stop ph m then elem x0 (b :: p :: rest)
                else elem xb (b :: p :: rest)) as Hxd.
  { intros b p rest Hin. destruct (p <? slice_stop ph m) eqn:E.
    - apply Nat.ltb_lt in E. by apply Hpre.
    - apply Nat.ltb_ge in E. rewrite Heb by done. by apply Hpost. }
  eexists xb, xd, _, _, evb, _. split; [reflexivity|].
  split; [reflexivity|]. split; [congruence|]. split; [exact Hxd|].
  intros -> idx Hin.
  destruct idx as [|b [|p rest]];
    [rewrite Hs in Hin; by apply Forall2_nil_cons_inv in Hin
    |rewrite Hs in Hin; apply in_range_cons in Hin as [_ Hin];
     by apply Forall2_nil_cons_inv in Hin|].
  by rewrite (Hxd b p rest Hin).
Qed.

End trajectory_edges.

(** [DM_loss_cond_shape] on the demo batch of two with a [cond] of three
    rows. *)
Lemma DM_loss_cond_shape_witness :
  ∃ self0 : DenoiseDiffusion Q,
    Demo.process true "l2" "linear" = Ok self0 ∧
    (DMDenoiseDiffusion_loss Demo.gen Demo.x0 (Some 0) (Some 1%Z)
       {| self := self0;
          heap := {[ 0 := {| shape := [3; 2]; elem := λ _, 1%Q |} ]};
          rng_pos := 0; trace := [] |}).1 = Raise RuntimeError.
Proof.
  eexists. split; [reflexivity|].
  match goal with
  | |- context [DMDenoiseDiffusion_loss _ _ _ _ ?s] =>
      rewrite (DM_loss_cond_shape Demo.gen s Demo.x0
                 {| shape := [3; 2]; elem := λ _, 1%Q |} 0 2 3 [] (Some 1%Z)
                 eq_refl ltac:(split; vm_compute; lia) eq_refl
                 ltac:(left; exists 3, 2; split; [reflexivity | lia]))
  end.
  reflexivity.
Defined.

(** [DM_loss_negative_horizon] on the demo batch with
    [preserved_horizon = -1]: position 1 of sequence 1 is that of [x0]. *)
Lemma DM_loss_negative_horizon_witness :
  ∃ self0 : DenoiseDiffusion Q,
    Demo.process false "l2" "linear" = Ok self0 ∧
    ∃ xt t l evs,
      trace (DMDenoiseDiffusion_loss Demo.gen Demo.x0 (Some 0)
               (Some (- Z.of_nat 1)%Z) (Demo.start self0)).2
        = Forward xt t (Some l) :: evs ++ [] ∧
      elem xt [1; 1] = elem Demo.x0 [1; 1].
Proof.
  eexists. split; [reflexivity|].
  match goal with
  | |- context [Demo.start ?s] =>
      destruct (DM_loss_negative_horizon Demo.gen (Demo.start s) Demo.x0
                  Demo.cond 0 2 3 2 1 [] eq_refl
                  ltac:(split; vm_compute; lia) eq_refl eq_refl
                  ltac:(intros [=]) ltac:(lia))
        as (xt & t & l & evs & Ht & Hall)
  end.
  exists xt, t, l, evs. split; [exact Ht|].
  apply (Hall 1 1 []); [repeat constructor | lia].
Defined.

(** [DM_loss_refines_base] on the demo batch with
    [preserved_horizon = 0]: both variants hand the predictor the same
    value at position 2 of sequence 1. *)
Lemma DM_loss_refines_base_witness :
  ∃ self0 : DenoiseDiffusion Q,
    Demo.process false "l2" "linear" = Ok self0 ∧
    ∃ xb xd t l evb evd,
      trace (DenoiseDiffusion_loss Demo.gen Demo.x0 (Some 0)
               (Demo.start self0)).2
        = Forward xb t (Some 0) :: evb ++ [] ∧
      trace (DMDenoiseDiffusion_loss Demo.gen Demo.x0 (Some 0) (Some 0%Z)
               (Demo.start self0)).2
        = Forward xd t (Some l) :: evd ++ [] ∧
      elem xd [1; 2] = elem xb [1; 2].
Proof.
  eexists. split; [reflexivity|].
  match goal with
  | |- context [Demo.start ?s] =>
      destruct (DM_loss_refines_base Demo.gen (Demo.start s) Demo.x0
                  Demo.cond 0 2 3 2 [] (Some 0%Z) eq_refl
                  ltac:(split; vm_compute; lia) eq_refl eq_refl
                  ltac:(intros [=]))
        as (xb & xd & t & l & evb & evd & Hb & Hd & _ & _ & Hall)
  end.
  exists xb, xd, t, l, evb, evd. split; [exact Hb|]. split; [exact Hd|].
  apply Hall; [reflexivity | repeat constructor].
Defined.

(** ** An unknown [loss_type] *)

Section late_error.
Context `{Scalar F} (G : Generator F).

(** X14. An unknown [loss_type] is noticed last: by the time the base
    [loss] raises its [ValueError] the generator has been advanced three
    times, the predictor has been called, and the caller's [cond] tensor
    has been multiplied by the mask, so the failed call is not without
    effect. *)
Theorem loss_unknown_kind_is_late (st : state F) (x0 v : tensor F)
    (c n d : nat) (ds : list nat) :
  shape x0 = n :: ds →
  schedule_ready (self st) →
  use_cond (eps_model (self st)) = true →
  is_Some (uncond_mask_dist (self st)) →
  heap st !! c = Some v →
  shape v = [n; d] →
  loss_type (self st) ≠ "l1" →
  loss_type (self st) ≠ "l2" →
  (∀ xt t cd h, is_ok (forward (eps_model (self st)) xt t cd h) = true) →
  let r := DenoiseDiffusion_loss G x0 (Some c) st in
  r.1 = Raise (ValueError ("Unknown loss_type: " +:+ loss_type (self st))) ∧
  rng_pos r.2 = 3 + rng_pos st ∧
  (∃ xt t,
     trace r.2 = Forward xt t (Some c) :: BernoulliSample n
                 :: RandnLike (shape x0) :: Randint (T (self st)) n
                 :: trace st) ∧
  ∃ cv,
    heap r.2 !! c = Some cv ∧
    ∀ b j, b < n → j < d →
      elem cv [b; j] = fmul (elem v [b; j]) (keep_value G (rng_pos st) b).
Proof.
  intros Hs Hr Hu Hd Hc Hv H1 H2 Hf r.
  destruct (loss_run_cond G st x0 v c n d ds Hs Hr Hu Hd Hc Hv)
    as (xt & cv & Hrun & _ & _ & _ & Hcv).
  cbn zeta in Hrun. subst r. rewrite Hrun. cbn [fst snd rng_pos trace heap].
  split.
  - specialize (Hf xt (drawn_t G (self st) (rng_pos st) n) (Some c)
                  (<[c:=cv]> (heap st))).
    destruct (forward _ _ _ _ _) as [pred|e]; [|done].
    cbn [rbind]. unfold reduce_loss.
    by rewrite !bool_decide_eq_false_2.
  - split; [done|]. split; [by eexists _, _|].
    exists cv. split; [apply lookup_insert_eq | exact Hcv].
Qed.

End late_error.

(** [loss_unknown_kind_is_late] on the demo batch with [loss_type = "l3"]:
    row 1 of the caller's tensor is zeroed although the call fails. *)
Lemma loss_unknown_kind_is_late_witness :
  ∃ self0 : DenoiseDiffusion Q,
    Demo.process true "l3" "linear" = Ok self0 ∧
    (DenoiseDiffusion_loss Demo.gen Demo.x0 (Some 0) (Demo.start self0)).1
      = Raise (ValueError "Unknown loss_type: l3") ∧
    ∃ cv,
      heap (DenoiseDiffusion_loss Demo.gen Demo.x0 (Some 0)
              (Demo.start self0)).2 !! 0 = Some cv ∧
      elem cv [1; 1] = 0%Q.
Proof.
  eexists. split; [reflexivity|].
  match goal with
  | |- context [Demo.start ?s] =>
      destruct (loss_unknown_kind_is_late Demo.gen (Demo.start s) Demo.x0
                  Demo.cond 0 2 2 [3] eq_refl
                  ltac:(split; vm_compute; lia) eq_refl
                  ltac:(eexists; reflexivity) eq_refl eq_refl
                  ltac:(intros [=]) ltac:(intros [=])
                  ltac:(reflexivity))
        as (Hres & _ & _ & cv & Hl & Hcv)
  end.
  split; [exact Hres|].
  exists cv. split; [exact Hl|].
  rewrite (Hcv 1 1 ltac:(lia) ltac:(lia)). reflexivity.
Defined.

(** ** [__repr__] over the life of an object *)

Section repr_stable.
Context `{Scalar F} (utils : diffusion_utils F) (G : Generator F).

Lemma run_calls_same_config (cs : list (call F)) (st : state F) :
  same_config (self (run_calls G cs st)) (self st).
Proof.
  revert st. induction cs as [|c cs IH]; intros st.
  - apply same_config_refl.
  - unfold run_calls. cbn [foldl]. eapply same_config_trans; [apply IH|].
    destruct c; [apply loss_same_config | apply DM_loss_same_config].
Qed.

(** X15. Whatever [loss] calls of either variant are made on a constructed
    object, on whatever inputs and whether they return or raise, its
    [__repr__] stays the JSON text of the constructor's [T], [loss_type]
    and [beta_schedule] and of whether an [uncond_prob] was given; the
    [beta_schedule] shown is always "linear" or "cosine", while the
    [loss_type] shown is any string. *)
Theorem repr_after_calls (m : Predictor F) (up : option F) (T0 : nat)
    (dev lt bs : string) (kw : list (string * F)) (self0 : DenoiseDiffusion F)
    (st : state F) (cs : list (call F)) :
  DenoiseDiffusion_init utils m up T0 dev lt bs kw = Ok self0 →
  self st = self0 →
  repr (self (run_calls G cs st))
    = dumps [("name", JStr "Denoise Diffusion");
             ("T", JInt T0);
             ("loss_type", JStr lt);
             ("beta_schedule", JStr bs);
             ("use_cond", JBool (if up is Some _ then true else false))] ∧
  (bs = "linear" ∨ bs = "cosine").
Proof.
  intros Hi Hst.
  destruct (init_inv utils m up T0 dev lt bs kw self0 Hi)
    as (Hm & HT & Hlt & _ & Hbs & _ & Hup & Hkind & _).
  destruct (run_calls_same_config cs st)
    as (Hm' & HT' & _ & Hlt' & Hbs' & _).
  split; [|destruct Hkind as [[-> _]|[-> _]]; [by left | by right]].
  unfold repr. rewrite Hm', HT', Hlt', Hbs', Hst, Hm, HT, Hlt, Hbs.
  assert (use_cond m = if up is Some _ then true else false) as ->; [|done].
  destruct (use_cond m) eqn:Hu.
  - destruct (proj1 Hup eq_refl) as [p ->]. done.
  - destruct up as [p|]; [|done]. apply (proj2 Hup). by eexists.
Qed.

End repr_stable.

(** [repr_after_calls] on the demo process after a base call on the demo
    batch and a trajectory call without [cond], which raises. *)
Lemma repr_after_calls_witness :
  ∃ self0 : DenoiseDiffusion Q,
    Demo.process true "l2" "cosine" = Ok self0 ∧
    repr (self (run_calls Demo.gen
                  [Loss Demo.x0 (Some 0); DMLoss Demo.x0 None (Some 1%Z)]
                  (Demo.start self0)))
      = "{" +:+ quote +:+ "name" +:+ quote +:+ ": "
            +:+ quote +:+ "Denoise Diffusion" +:+ quote +:+ ", "
            +:+ quote +:+ "T" +:+ quote +:+ ": 4, "
            +:+ quote +:+ "loss_type" +:+ quote +:+ ": "
            +:+ quote +:+ "l2" +:+ quote +:+ ", "
            +:+ quote +:+ "beta_schedule" +:+ quote +:+ ": "
            +:+ quote +:+ "cosine" +:+ quote +:+ ", "
            +:+ quote +:+ "use_cond" +:+ quote +:+ ": true}".
Proof.
  eexists. split; [reflexivity|].
  match goal with
  | |- context [Demo.start ?s] =>
      rewrite (proj1 (repr_after_calls (H:=Demo.Q_scalar) Demo.utils Demo.gen
                        (Demo.echo true)
                        (Some (1 # 4)%Q) 4 "cpu" "l2" "cosine" []
                        s (Demo.start s) _ eq_refl eq_refl))
  end.
  vm_compute. reflexivity.
Defined.
